(** * A shallow embedding of xpctl's [src/main.rs]

    The single [App] struct, its handlers ([handle_events], [fzf_search],
    [handshake], [fetch_connections], [open_terminal_session]) and the
    start-up part of [run] are modelled as computations in a small monad
    over a world that holds the [App], the pending terminal input events and
    the output written so far.  The outside world (environment variables,
    the HTTP service, the [fzf] process, the JSON text parser of serde_json)
    is an [Env] record of oracles: every theorem quantifies over it. *)

From Stdlib Require Import Ascii String List.
From Stdlib Require Import Structures.OrdersEx.
From stdpp Require Import base list gmap strings sorting.

Open Scope list_scope.
Set Warnings "-register-all".

(* ------------------------------------------------------------------ *)
(** ** Data model *)

(** [Result<T, E>]. *)
Inductive result (A E : Type) : Type :=
| Ok (a : A)
| Err (e : E).
Arguments Ok {A E} a.
Arguments Err {A E} e.

(** [struct App] (derives [Default]); [HashMap<String, Vec<String>>] is a
    [gmap]. *)
Record App : Type := mkApp {
  servers : list string;
  resources : gmap string (list string);
  selected_index : nat;
  viewing_resources : bool;
  current_server : string;
  exit : bool;
  session_token : option string;
}.

Definition App_default : App :=
  mkApp [] ∅ 0 false EmptyString false None.

Definition set_selected_index (a : App) (i : nat) : App :=
  mkApp (servers a) (resources a) i (viewing_resources a) (current_server a)
        (exit a) (session_token a).
Definition set_exit (a : App) (b : bool) : App :=
  mkApp (servers a) (resources a) (selected_index a) (viewing_resources a)
        (current_server a) b (session_token a).
Definition set_session_token (a : App) (t : option string) : App :=
  mkApp (servers a) (resources a) (selected_index a) (viewing_resources a)
        (current_server a) (exit a) t.
Definition set_catalogue (a : App) (s : list string)
    (r : gmap string (list string)) : App :=
  mkApp s r (selected_index a) (viewing_resources a) (current_server a)
        (exit a) (session_token a).

(** crossterm's [KeyCode]: the variants the handlers match on, the others
    collapsed into [KOther]. *)
Inductive KeyCode : Type :=
| KDown | KUp | KEnter
| KChar (c : ascii)
| KOther (n : nat).

Inductive KeyEventKind : Type := Press | Repeat | Release.

(** [KeyEvent]: the handlers match [code] and [kind] and ignore the other
    fields ([..]). *)
Record KeyEvent : Type := mkKeyEvent { code : KeyCode; kind : KeyEventKind }.

(** crossterm's [Event]. *)
Inductive Event : Type :=
| EvFocusGained
| EvFocusLost
| EvKey (k : KeyEvent)
| EvMouse
| EvPaste (s : string)
| EvResize (cols rows : nat).

(** [io::Error] of [event::read]. *)
Inductive IoError : Type := IoErr (msg : string).

(** A JSON value (serde_json's [Value]). *)
Inductive json : Type :=
| JNull
| JBool (b : bool)
| JNum (n : Z)
| JStr (s : string)
| JArr (l : list json)
| JObj (fs : list (string * json)).

(** An HTTP request as built by [reqwest]: URL, bearer token, JSON body. *)
Record Request : Type := mkRequest {
  req_url : string;
  req_bearer : option string;
  req_body : json;
}.

(** What [.send()] yields: a transport error, or a response with its status
    code and its body ([None] when reading the body fails). *)
Inductive Reply : Type :=
| SendErr (e : string)
| Resp (status : nat) (body : option string).

(** [reqwest::Error] as far as the code distinguishes it. *)
Inductive ReqError : Type :=
| ReqSend (e : string)
| ReqBody
| ReqDecode.

(** The outcome of [Command::new("fzf").spawn()], writing the input to its
    stdin and [wait_with_output()]: spawn error, write error, wait error, or
    termination with its success flag and its stdout ([None] when it is not
    valid UTF-8, i.e. when [String::from_utf8] fails). *)
Inductive FzfRun : Type :=
| FzfSpawnFailed (e : string)
| FzfWriteFailed (e : string)
| FzfWaitFailed (e : string)
| FzfExited (success : bool) (stdout : option string).

(** What the program writes: [execute!(Clear)], a [println!] line, an
    [eprintln!] line, an HTTP request sent, an [fzf] process spawned with its
    input, a frame drawn (the list items and the highlighted index). *)
Inductive Output : Type :=
| OClear
| OStdout (line : string)
| OStderr (line : string)
| OPost (rq : Request)
| OFzf (input : string)
| ODraw (items : list string) (selected : nat).

(** The oracles of the outside world. *)
Record Env : Type := mkEnv {
  env_var : string -> option string;
  http : Request -> Reply;
  parse_json : string -> option json;
  fzf : string -> FzfRun;
}.

(** The mutable world: the app, the pending input events (each one either
    an event or a read error), and the output so far, oldest first. *)
Record World : Type := mkWorld {
  app : App;
  events : list (result Event IoError);
  out : list Output;
}.

(* ------------------------------------------------------------------ *)
(** ** The monad: state, panics, and blocking on input *)

Inductive Outcome (A : Type) : Type :=
| Done (a : A) (w : World)
| Panicked (msg : string) (w : World)
| Blocked (w : World).
Arguments Done {A} a w.
Arguments Panicked {A} msg w.
Arguments Blocked {A} w.

Definition M (A : Type) : Type := World -> Outcome A.

Definition M_ret {A} (a : A) : M A := fun w => Done a w.
Definition M_bind {A B} (m : M A) (k : A -> M B) : M B := fun w =>
  match m w with
  | Done a w' => k a w'
  | Panicked s w' => Panicked s w'
  | Blocked w' => Blocked w'
  end.

Global Instance M_MRet : MRet M := @M_ret.
Global Instance M_MBind : MBind M := fun A B k m => M_bind m k.

Definition get_app : M App := fun w => Done (app w) w.
Definition put_app (a : App) : M unit := fun w =>
  Done tt (mkWorld a (events w) (out w)).
Definition emit (o : Output) : M unit := fun w =>
  Done tt (mkWorld (app w) (events w) (out w ++ [o])).
Definition panic {A} (msg : string) : M A := fun w => Panicked msg w.

(** [event::read()]: takes the next pending event; with none pending it
    blocks. *)
Definition read_event : M (result Event IoError) := fun w =>
  match events w with
  | [] => Blocked w
  | e :: es => Done e (mkWorld (app w) es (out w))
  end.

(* ------------------------------------------------------------------ *)
(** ** Strings and lists as the Rust standard library has them *)

Definition nl : string := String (Ascii.ascii_of_nat 10) EmptyString.

(** [slice.join(sep)]. *)
Fixpoint join (sep : string) (l : list string) : string :=
  match l with
  | [] => EmptyString
  | [x] => x
  | x :: l' => (x ++ sep ++ join sep l')%string
  end.

(** [char::is_whitespace], i.e. the Unicode property White_Space, on the
    UTF-8 encoding of a [String]: a [string] here is the byte sequence of a
    Rust [String], hence valid UTF-8.  The one-byte whitespace characters
    are tab, line feed, vertical tab, form feed, carriage return and space;
    [is_whitespace2] and [is_whitespace3] recognise the encodings of the
    others: U+0085 and U+00A0 (two bytes), U+1680, U+2000..U+200A, U+2028,
    U+2029, U+202F, U+205F and U+3000 (three bytes). *)
Definition is_whitespace (c : ascii) : bool :=
  let n := Ascii.nat_of_ascii c in
  ((9 <=? n) && (n <=? 13)) || (n =? 32).

Definition is_whitespace2 (c1 c2 : ascii) : bool :=
  let n1 := Ascii.nat_of_ascii c1 in
  let n2 := Ascii.nat_of_ascii c2 in
  (n1 =? 194) && ((n2 =? 133) || (n2 =? 160)).

Definition is_whitespace3 (c1 c2 c3 : ascii) : bool :=
  let n1 := Ascii.nat_of_ascii c1 in
  let n2 := Ascii.nat_of_ascii c2 in
  let n3 := Ascii.nat_of_ascii c3 in
  ((n1 =? 225) && (n2 =? 154) && (n3 =? 128)) ||
  ((n1 =? 226) && (n2 =? 128) &&
     (((128 <=? n3) && (n3 <=? 138)) || (n3 =? 168) || (n3 =? 169) ||
      (n3 =? 175))) ||
  ((n1 =? 226) && (n2 =? 129) && (n3 =? 159)) ||
  ((n1 =? 227) && (n2 =? 128) && (n3 =? 128)).

(** Drops the whitespace characters at the front of a byte sequence. *)
Fixpoint trim_start_bytes (l : list ascii) : list ascii :=
  match l with
  | [] => []
  | c1 :: l1 =>
      if is_whitespace c1 then trim_start_bytes l1 else
      match l1 with
      | [] => l
      | c2 :: l2 =>
          if is_whitespace2 c1 c2 then trim_start_bytes l2 else
          match l2 with
          | [] => l
          | c3 :: l3 =>
              if is_whitespace3 c1 c2 c3 then trim_start_bytes l3 else l
          end
      end
  end.

(** Drops the whitespace characters at the front of a reversed byte
    sequence, i.e. at the end of the sequence. *)
Fixpoint trim_end_rev_bytes (r : list ascii) : list ascii :=
  match r with
  | [] => []
  | c3 :: r1 =>
      if is_whitespace c3 then trim_end_rev_bytes r1 else
      match r1 with
      | [] => r
      | c2 :: r2 =>
          if is_whitespace2 c2 c3 then trim_end_rev_bytes r2 else
          match r2 with
          | [] => r
          | c1 :: r3 =>
              if is_whitespace3 c1 c2 c3 then trim_end_rev_bytes r3 else r
          end
      end
  end.

(** [str::trim_start]. *)
Definition trim_start (s : string) : string :=
  string_of_list_ascii (trim_start_bytes (list_ascii_of_string s)).

(** [str::trim_end]. *)
Definition trim_end (s : string) : string :=
  string_of_list_ascii
    (rev (trim_end_rev_bytes (rev (list_ascii_of_string s)))).

(** [str::trim]. *)
Definition trim (s : string) : string := trim_end (trim_start s).

(** [Ord for String]: lexicographic on the bytes, i.e. on the ASCII codes. *)
Definition str_le (s t : string) : Prop := String_as_OT.compare s t <> Gt.

Global Instance str_le_dec : RelDecision str_le.
Proof.
  intros s t. unfold str_le. destruct (String_as_OT.compare s t).
  - left; discriminate.
  - left; discriminate.
  - right; intros H; apply H; reflexivity.
Defined.

(** [Vec::sort] (a stable merge sort).  Equal strings are identical, so
    every sort by this total order yields the same list. *)
Definition sort (l : list string) : list string := merge_sort str_le l.

(** [Vec::dedup]: drops every element equal to the last one kept. *)
Fixpoint dedup_from (prev : string) (l : list string) : list string :=
  match l with
  | [] => []
  | x :: l' => if String.eqb x prev then dedup_from prev l'
               else x :: dedup_from x l'
  end.

Definition dedup (l : list string) : list string :=
  match l with
  | [] => []
  | x :: l' => x :: dedup_from x l'
  end.

(* ------------------------------------------------------------------ *)
(** ** Response types and their [#[derive(Deserialize)]] *)

(** [struct RawData { container_name: Option<String> }]. *)
Record RawData : Type := mkRawData { container_name : option string }.

(** [struct ConnectionInfo { name: Vec<String>, raw_data: Option<RawData> }]. *)
Record ConnectionInfo : Type := mkConnectionInfo {
  name : list string;
  raw_data : option RawData;
}.

(** Field [k] of a JSON object as a derived [Deserialize] reads it: a
    repeated key is an error ([None]), a missing one is [Some None];
    unknown keys are ignored. *)
Definition obj_field (fs : list (string * json)) (k : string)
    : option (option json) :=
  match List.filter (fun p => String.eqb (fst p) k) fs with
  | [] => Some None
  | [(_, v)] => Some (Some v)
  | _ => None
  end.

Definition de_string (j : json) : option string :=
  match j with JStr s => Some s | _ => None end.

Fixpoint de_strings (l : list json) : option (list string) :=
  match l with
  | [] => Some []
  | j :: l' =>
      match de_string j, de_strings l' with
      | Some s, Some ss => Some (s :: ss)
      | _, _ => None
      end
  end.

(** [Vec<String>]. *)
Definition de_vec_string (j : json) : option (list string) :=
  match j with JArr l => de_strings l | _ => None end.

(** A required field. *)
Definition de_required {A} (de : json -> option A)
    (fs : list (string * json)) (k : string) : option A :=
  match obj_field fs k with
  | Some (Some v) => de v
  | _ => None
  end.

(** An [Option<_>] field: missing or [null] is [None]. *)
Definition de_optional {A} (de : json -> option A)
    (fs : list (string * json)) (k : string) : option (option A) :=
  match obj_field fs k with
  | None => None
  | Some None | Some (Some JNull) => Some None
  | Some (Some v) => option_map Some (de v)
  end.

Definition de_handshake (j : json) : option string :=
  match j with JObj fs => de_required de_string fs "sessionToken" | _ => None end.

Definition de_query (j : json) : option (list string) :=
  match j with JObj fs => de_required de_vec_string fs "found" | _ => None end.

Definition de_raw_data (j : json) : option RawData :=
  match j with
  | JObj fs => option_map mkRawData (de_optional de_string fs "containerName")
  | _ => None
  end.

Definition de_info (j : json) : option ConnectionInfo :=
  match j with
  | JObj fs =>
      match de_required de_vec_string fs "name",
            de_optional de_raw_data fs "rawData" with
      | Some n, Some r => Some (mkConnectionInfo n r)
      | _, _ => None
      end
  | _ => None
  end.

Fixpoint de_infos (l : list json) : option (list ConnectionInfo) :=
  match l with
  | [] => Some []
  | j :: l' =>
      match de_info j, de_infos l' with
      | Some i, Some is => Some (i :: is)
      | _, _ => None
      end
  end.

Definition de_info_response (j : json) : option (list ConnectionInfo) :=
  match j with
  | JObj fs => de_required (fun v => match v with
                                     | JArr l => de_infos l
                                     | _ => None end) fs "infos"
  | _ => None
  end.

(* ------------------------------------------------------------------ *)
(** ** [impl App] *)

Definition API_URL : string := "http://localhost:21721".

Section Program.
Variable E : Env.

(** [client.post(url).bearer_auth(..).json(..).send()]: the request is
    recorded, the service answers. *)
Definition http_send (rq : Request) : M Reply :=
  emit (OPost rq) ;; mret (http E rq).

(** [.send()?.json()?] into a type with deserializer [de]. *)
Definition decode_reply {A} (de : json -> option A) (r : Reply)
    : result A ReqError :=
  match r with
  | SendErr e => Err (ReqSend e)
  | Resp _ None => Err ReqBody
  | Resp _ (Some text) =>
      match parse_json E text with
      | None => Err ReqDecode
      | Some j => match de j with None => Err ReqDecode | Some v => Ok v end
      end
  end.

(** [StatusCode::is_success]: 200..=299. *)
Definition is_success (status : nat) : bool :=
  (200 <=? status) && (status <? 300).

(** The request of [open_terminal_session], with its [payload]. *)
Definition terminal_request (token connection_uuid : string) : Request :=
  mkRequest (API_URL ++ "/connection/terminal")%string (Some token)
    (JObj [("connection", JStr connection_uuid); ("directory", JStr "/")]).

(** [fn open_terminal_session(&self, connection_uuid: &str)].  The
    [execute!(..).unwrap()] and [println!] calls are taken to succeed. *)
Definition open_terminal_session (self : App) (connection_uuid : string)
    : M unit :=
  match session_token self with
  | Some token =>
      emit OClear ;;
      emit (OStdout ("Connecting to " ++ connection_uuid ++ "...")%string) ;;
      r ← http_send (terminal_request token connection_uuid) ;
      match r with
      | Resp status body =>
          if is_success status then
            emit (OStdout ("Terminal session opened successfully for: "
                           ++ connection_uuid)%string)
          else
            let error_text := match body with
                              | Some t => t
                              | None => "Unknown error"%string
                              end in
            emit (OStderr ("Error opening terminal session:" ++ nl
                           ++ error_text)%string)
      | SendErr err => emit (OStderr ("Request failed: " ++ err)%string)
      end ;;
      emit (OStdout "Press any key to return...") ;;
      _ ← read_event ;
      mret tt
  | None => mret tt
  end.

(** [fn fzf_search(&mut self)].  The [eprintln!] calls are taken to
    succeed. *)
Definition fzf_search : M unit :=
  self ← get_app ;
  let input := join nl (servers self) in
  emit (OFzf input) ;;
  match fzf E input with
  | FzfSpawnFailed e => panic ("Failed to spawn fzf process: " ++ e)%string
  | FzfWriteFailed e =>
      emit (OStderr ("Failed to write to fzf stdin: " ++ e)%string)
  | FzfWaitFailed e => panic ("Failed to read fzf output: " ++ e)%string
  | FzfExited success stdout =>
      if success then
        match stdout with
        | Some selected =>
            let selected := trim selected in
            match resources self !! selected with
            | Some connection_ids =>
                match head connection_ids with
                | Some connection_id => open_terminal_session self connection_id
                | None => emit (OStderr
                    "No connection ID found for the selected server.")
                end
            | None => emit (OStderr "Selected server not found in resources.")
            end
        | None => mret tt
        end
      else emit (OStderr "No selection made or fzf process failed.")
  end.

(** The list items of [fn draw(&self, frame)]:
    [servers.iter().enumerate().map(..)], each server paired with whether it
    is drawn bold yellow ([i == self.selected_index]).  The block title, the
    instruction line and the layout are not modelled. *)
Fixpoint draw_items_from (i : nat) (servers : list string)
    (selected_index : nat) : list (string * bool) :=
  match servers with
  | [] => []
  | server :: l => (server, i =? selected_index)
                   :: draw_items_from (S i) l selected_index
  end.

Definition draw_items (servers : list string) (selected_index : nat)
    : list (string * bool) :=
  draw_items_from 0 servers selected_index.

(** [fn handle_events(&mut self) -> io::Result<()>].  Indexing
    [self.servers[self.selected_index]] out of range panics. *)
Definition handle_events : M (result unit IoError) :=
  ev ← read_event ;
  match ev with
  | Err e => mret (Err e)
  | Ok ev =>
      (match ev with
       | EvKey (mkKeyEvent (KDown | KChar "j"%char) Press) =>
           self ← get_app ;
           if S (selected_index self) <? length (servers self)
           then put_app (set_selected_index self (S (selected_index self)))
           else mret tt
       | EvKey (mkKeyEvent (KUp | KChar "k"%char) Press) =>
           self ← get_app ;
           if 0 <? selected_index self
           then put_app (set_selected_index self (selected_index self - 1))
           else mret tt
       | EvKey (mkKeyEvent KEnter Press) =>
           self ← get_app ;
           match servers self !! selected_index self with
           | None => panic "index out of bounds"
           | Some selected_server =>
               match resources self !! selected_server with
               | Some connection_ids =>
                   match head connection_ids with
                   | Some connection_id =>
                       open_terminal_session self connection_id
                   | None => mret tt
                   end
               | None => emit (OStderr
                   "No connection ID found for the selected server.")
               end
           end
       | EvKey (mkKeyEvent (KChar "/"%char) Press) => fzf_search
       | EvKey (mkKeyEvent (KChar "q"%char) Press) =>
           self ← get_app ; put_app (set_exit self true)
       | _ => mret tt
       end) ;;
      mret (Ok tt)
  end.

(** The request of [handshake]. *)
Definition handshake_request (api_key : string) : Request :=
  mkRequest (API_URL ++ "/handshake")%string None
    (JObj [("auth", JObj [("type", JStr "ApiKey"); ("key", JStr api_key)]);
           ("client", JObj [("type", JStr "Api"); ("name", JStr "xpcli")])]).

(** [fn handshake(&self) -> Result<String, reqwest::Error>]; a missing
    [XPIPE_API_KEY] makes [.expect(..)] panic. *)
Definition handshake : M (result string ReqError) :=
  match env_var E "XPIPE_API_KEY" with
  | None => panic "XPIPE_API_KEY environment variable not set: NotPresent"
  | Some api_key =>
      r ← http_send (handshake_request api_key) ;
      mret (decode_reply de_handshake r)
  end.

(** One turn of the loop [for (info, connection_id) in infos.zip(ids)] on
    the pair (servers, resources); [entry(..).or_default().push(..)]. *)
Definition fold_step (st : list string * gmap string (list string))
    (p : ConnectionInfo * string) : list string * gmap string (list string) :=
  let '(srv, res) := st in
  let '(info, connection_id) := p in
  match head (name info) with
  | Some server_name =>
      (srv ++ [server_name],
       <[server_name := default [] (res !! server_name) ++ [connection_id]]> res)
  | None => (srv, res)
  end.

Definition fold_infos (srv : list string) (res : gmap string (list string))
    (infos : list ConnectionInfo) (connection_ids : list string)
    : list string * gmap string (list string) :=
  fold_left fold_step (combine infos connection_ids) (srv, res).

Definition query_request (token : string) : Request :=
  mkRequest (API_URL ++ "/connection/query")%string (Some token)
    (JObj [("categoryFilter", JStr "*"); ("connectionFilter", JStr "*");
           ("typeFilter", JStr "ssh")]).

Definition info_request (token : string) (connection_ids : list string)
    : Request :=
  mkRequest (API_URL ++ "/connection/info")%string (Some token)
    (JObj [("connections", JArr (map JStr connection_ids))]).

(** [fn fetch_connections(&mut self) -> Result<(), reqwest::Error>]. *)
Definition fetch_connections : M (result unit ReqError) :=
  self ← get_app ;
  match session_token self with
  | None => mret (Ok tt)
  | Some token =>
      r1 ← http_send (query_request token) ;
      match decode_reply de_query r1 with
      | Err e => mret (Err e)
      | Ok connection_ids =>
          r2 ← http_send (info_request token connection_ids) ;
          match decode_reply de_info_response r2 with
          | Err e => mret (Err e)
          | Ok infos =>
              let '(srv, res) :=
                fold_infos (servers self) (resources self) infos connection_ids in
              put_app (set_catalogue self (dedup (sort srv)) res) ;;
              mret (Ok tt)
          end
      end
  end.

(** [Display for reqwest::Error], as far as it is modelled. *)
Definition show_req_error (e : ReqError) : string :=
  match e with
  | ReqSend s => s
  | ReqBody => "error reading response body"
  | ReqDecode => "error decoding response body"
  end.

(** The part of [fn run] before the event loop.  [eprintln!] and
    [Client::new()] are taken to succeed. *)
Definition run_setup : M unit :=
  h ← handshake ;
  match h with
  | Ok token =>
      self ← get_app ;
      put_app (set_session_token self (Some token)) ;;
      r ← fetch_connections ;
      match r with
      | Ok _ => mret tt
      | Err err => emit (OStderr ("Error fetching connections: "
                                  ++ show_req_error err)%string)
      end
  | Err _ => emit (OStderr "Error during handshake.")
  end.

(** [while !self.exit { terminal.draw(..)?; self.handle_events()?; }], with
    [draw] recorded as the frame it shows (taken to succeed).  Each turn
    reads an event, so [fuel] beyond the pending events is never used up. *)
Fixpoint run_loop (fuel : nat) : M (result unit IoError) :=
  match fuel with
  | O => fun w => Blocked w
  | S fuel' =>
      self ← get_app ;
      if exit self then mret (Ok tt) else
      emit (ODraw (servers self) (selected_index self)) ;;
      r ← handle_events ;
      match r with
      | Err e => mret (Err e)
      | Ok _ => run_loop fuel'
      end
  end.

(** [fn run(&mut self, terminal) -> io::Result<()>]. *)
Definition run : M (result unit IoError) :=
  run_setup ;;
  ((fun w => run_loop (S (length (events w))) w) : M (result unit IoError)).

End Program.

(* ------------------------------------------------------------------ *)
(** ** A concrete service, for running the model *)

Module Sample.

(** The service of the scenario: the query finds [a1] and [a2], both named
    [web1]; the terminal endpoint refuses with status 500. *)
Definition http (rq : Request) : Reply :=
  if String.eqb (req_url rq) (API_URL ++ "/handshake")%string then Resp 200 (Some "H")
  else if String.eqb (req_url rq) (API_URL ++ "/connection/query")%string
  then Resp 200 (Some "Q")
  else if String.eqb (req_url rq) (API_URL ++ "/connection/info")%string
  then Resp 200 (Some "I")
  else Resp 500 (Some "connection refused").

(** serde_json on the three bodies the service sends. *)
Definition parse_json (text : string) : option json :=
  if String.eqb text "H" then Some (JObj [("sessionToken", JStr "tok")])
  else if String.eqb text "Q" then Some (JObj [("found", JArr [JStr "a1"; JStr "a2"])])
  else if String.eqb text "I" then
    Some (JObj [("infos", JArr [JObj [("name", JArr [JStr "web1"])];
                                JObj [("name", JArr [JStr "web1"])]])])
  else None.

Definition env (key : option string) (fzf_run : FzfRun) : Env :=
  mkEnv (fun v => if String.eqb v "XPIPE_API_KEY" then key else None)
        http parse_json (fun _ => fzf_run).

Definition key (c : KeyCode) : result Event IoError :=
  Ok (EvKey (mkKeyEvent c Press)).

End Sample.

(* ------------------------------------------------------------------ *)
(** ** Proof support *)

From Stdlib Require Import Lia.

Ltac unfold_M :=
  unfold http_send in *;
  unfold mbind, mret, M_MBind, M_MRet, M_bind, M_ret, get_app, put_app,
    emit, panic, read_event in *; cbn -[Nat.ltb Nat.leb] in *.

Lemma set_selected_index_same (a : App) :
  set_selected_index a (selected_index a) = a.
Proof. destruct a; reflexivity. Qed.

(** A Move-down key: [KeyCode::Down] or ['j']; a Move-up key: [Up] or ['k']. *)
Definition move_down_key (c : KeyCode) : Prop := c = KDown \/ c = KChar "j"%char.
Definition move_up_key (c : KeyCode) : Prop := c = KUp \/ c = KChar "k"%char.

Definition press (c : KeyCode) : result Event IoError :=
  Ok (EvKey (mkKeyEvent c Press)).

(* ------------------------------------------------------------------ *)
(** ** Cursor movement *)

(** C7: in an [n]-item view with the cursor at [i <= n-1], Move-down moves
    it to [i+1] except at [n-1], where it stays; Move-up moves it to [i-1]
    except at [0], where it stays; nothing else of the app changes and the
    cursor stays within [0 .. n-1]. *)
Theorem cursor_move_clamped (E : Env) (a : App)
    (es : list (result Event IoError)) (o : list Output)
    (Hi : selected_index a < length (servers a)) :
  (forall c, move_down_key c ->
     exists a', handle_events E (mkWorld a (press c :: es) o)
                = Done (Ok tt) (mkWorld a' es o)
       /\ a' = set_selected_index a (selected_index a')
       /\ selected_index a' =
            (if selected_index a =? length (servers a) - 1
             then length (servers a) - 1 else S (selected_index a))
       /\ selected_index a' <= length (servers a) - 1) /\
  (forall c, move_up_key c ->
     exists a', handle_events E (mkWorld a (press c :: es) o)
                = Done (Ok tt) (mkWorld a' es o)
       /\ a' = set_selected_index a (selected_index a')
       /\ selected_index a' =
            (if selected_index a =? 0 then 0 else selected_index a - 1)
       /\ selected_index a' <= length (servers a) - 1).
Proof.
  split; intros c Hc.
  - assert (Hstep : handle_events E (mkWorld a (press c :: es) o) =
      Done (Ok tt) (mkWorld (if S (selected_index a) <? length (servers a)
                             then set_selected_index a (S (selected_index a))
                             else a) es o)).
    { destruct Hc; subst c; unfold handle_events, press; unfold_M;
        destruct (S (selected_index a) <? length (servers a)); reflexivity. }
    rewrite Hstep.
    destruct (Nat.ltb_spec (S (selected_index a)) (length (servers a))).
    + eexists; split; [reflexivity|]. cbn. split; [reflexivity|].
      destruct (Nat.eqb_spec (selected_index a) (length (servers a) - 1));
        split; lia.
    + eexists; split; [reflexivity|].
      rewrite set_selected_index_same. split; [reflexivity|].
      destruct (Nat.eqb_spec (selected_index a) (length (servers a) - 1));
        split; lia.
  - assert (Hstep : handle_events E (mkWorld a (press c :: es) o) =
      Done (Ok tt) (mkWorld (if 0 <? selected_index a
                             then set_selected_index a (selected_index a - 1)
                             else a) es o)).
    { destruct Hc; subst c; unfold handle_events, press; unfold_M;
        destruct (0 <? selected_index a); reflexivity. }
    rewrite Hstep.
    destruct (Nat.ltb_spec 0 (selected_index a)).
    + eexists; split; [reflexivity|]. cbn. split; [reflexivity|].
      destruct (Nat.eqb_spec (selected_index a) 0); split; lia.
    + eexists; split; [reflexivity|].
      rewrite set_selected_index_same. split; [reflexivity|].
      destruct (Nat.eqb_spec (selected_index a) 0); split; lia.
Qed.

Lemma cursor_move_clamped_witness :
  selected_index (set_selected_index App_default 0) <
    length (servers (set_catalogue App_default ["web1"%string] ∅)) /\
  exists a', handle_events (Sample.env None (FzfExited false None))
               (mkWorld (set_catalogue App_default ["web1"%string] ∅)
                        [press KDown] [])
             = Done (Ok tt) (mkWorld a' [] [])
   /\ a' = set_selected_index (set_catalogue App_default ["web1"%string] ∅)
                              (selected_index a')
   /\ selected_index a' = (if 0 =? 1 - 1 then 1 - 1 else 1)
   /\ selected_index a' <= 1 - 1.
Proof.
  split; [cbn; lia|].
  apply (proj1 (cursor_move_clamped (Sample.env None (FzfExited false None))
                  (set_catalogue App_default ["web1"%string] ∅) [] []
                  ltac:(cbn; lia)) KDown).
  left; reflexivity.
Defined.

(* ------------------------------------------------------------------ *)
(** ** The empty catalogue *)

(** C1 (failing input): in the initial app, whose catalogue is empty,
    Move-down and Move-up ([Down], [j], [Up], [k]) leave the app unchanged,
    but Confirm ([Enter]) indexes [servers[0]] and panics. *)
Theorem empty_catalogue_confirm_panics (E : Env)
    (es : list (result Event IoError)) (o : list Output) :
  Forall (fun c => handle_events E (mkWorld App_default (press c :: es) o)
                   = Done (Ok tt) (mkWorld App_default es o))
         [KDown; KChar "j"%char; KUp; KChar "k"%char] /\
  handle_events E (mkWorld App_default (press KEnter :: es) o)
  = Panicked "index out of bounds" (mkWorld App_default es o).
Proof.
  split; [repeat constructor | reflexivity].
Qed.

(* ------------------------------------------------------------------ *)
(** ** Without a session token *)

(** C8: with no session token, [fetch_connections] returns [Ok] and leaves
    the whole world as it was (no request, no change to [servers] or
    [resources]), and [open_terminal_session] does nothing at all (no
    request, no screen clearing, no waiting for input). *)
Theorem unauthenticated_fetch_launch_noop (E : Env) (a : App)
    (es : list (result Event IoError)) (o : list Output)
    (Hnone : session_token a = None) :
  fetch_connections E (mkWorld a es o) = Done (Ok tt) (mkWorld a es o) /\
  (forall connection_uuid,
     open_terminal_session E a connection_uuid (mkWorld a es o)
     = Done tt (mkWorld a es o)).
Proof.
  split.
  - unfold fetch_connections; unfold_M. rewrite Hnone. reflexivity.
  - intros connection_uuid. unfold open_terminal_session. rewrite Hnone.
    reflexivity.
Qed.

Lemma unauthenticated_fetch_launch_noop_witness :
  session_token App_default = None /\
  fetch_connections (Sample.env None (FzfExited false None))
    (mkWorld App_default [] []) = Done (Ok tt) (mkWorld App_default [] []) /\
  (forall connection_uuid,
     open_terminal_session (Sample.env None (FzfExited false None))
       App_default connection_uuid (mkWorld App_default [] [])
     = Done tt (mkWorld App_default [] [])).
Proof.
  split; [reflexivity|].
  apply (unauthenticated_fetch_launch_noop _ App_default [] []).
  reflexivity.
Defined.

(* ------------------------------------------------------------------ *)
(** ** Which identifier is launched *)


Definition sample_app : App :=
  mkApp ["web1"%string] (<["web1"%string := ["a1"%string; "a2"%string]]> ∅)
        0 false EmptyString false (Some "tok"%string).

Definition sample_env : Env :=
  Sample.env (Some "k"%string) (FzfExited true (Some ("web1" ++ nl)%string)).


(* ------------------------------------------------------------------ *)
(** ** Fetch failures *)

(** [fetch_connections] changes the app only on its success path. *)
Lemma fetch_connections_err_app (E : Env) (w w' : World) (e : ReqError) :
  fetch_connections E w = Done (Err e) w' -> app w' = app w.
Proof.
  destruct w as [a es o]. unfold fetch_connections; unfold_M.
  destruct (session_token a) as [token|]; [|discriminate].
  match goal with |- context [decode_reply E de_query ?r] =>
    destruct (decode_reply E de_query r) as [ids|e1]; cbn end.
  - match goal with |- context [decode_reply E de_info_response ?r] =>
      destruct (decode_reply E de_info_response r) as [infos|e2]; cbn end.
    + match goal with |- context [fold_infos ?x ?y ?z ?t] =>
        destruct (fold_infos x y z t) end; discriminate.
    + intros H; injection H as <- <-; reflexivity.
  - intros H; injection H as <- <-; reflexivity.
Qed.

(** C5: when the query step or the info step fails (transport error,
    unreadable body, or a payload that does not decode), [fetch_connections]
    returns that error and the app, hence [servers] and [resources], is
    exactly as before (empty on the first run). *)
Theorem fetch_failure_keeps_catalogue (E : Env) (a : App)
    (es : list (result Event IoError)) (o : list Output)
    (token : string) (e : ReqError)
    (Htoken : session_token a = Some token)
    (Hfail : decode_reply E de_query (http E (query_request token)) = Err e \/
             exists connection_ids,
               decode_reply E de_query (http E (query_request token))
               = Ok connection_ids /\
               decode_reply E de_info_response
                 (http E (info_request token connection_ids)) = Err e) :
  exists w', fetch_connections E (mkWorld a es o) = Done (Err e) w' /\
             app w' = a /\ servers (app w') = servers a /\
             resources (app w') = resources a.
Proof.
  assert (Hrun : exists w', fetch_connections E (mkWorld a es o)
                            = Done (Err e) w').
  { unfold fetch_connections; unfold_M. rewrite Htoken. cbn.
    destruct Hfail as [Hq | [ids [Hq Hi]]]; rewrite Hq; cbn.
    - eexists; reflexivity.
    - rewrite Hi. eexists; reflexivity. }
  destruct Hrun as [w' Hrun]. exists w'.
  pose proof (fetch_connections_err_app _ _ _ _ Hrun) as Happ.
  cbn in Happ. rewrite Happ. auto.
Qed.

(** A service whose query endpoint is unreachable. *)
Definition down_env : Env :=
  mkEnv (fun _ => Some "k"%string) (fun _ => SendErr "connection refused")
        Sample.parse_json (fun _ => FzfExited false None).

Lemma fetch_failure_keeps_catalogue_witness :
  exists w', fetch_connections down_env
               (mkWorld (set_session_token App_default (Some "tok"%string)) [] [])
             = Done (Err (ReqSend "connection refused")) w' /\
             app w' = set_session_token App_default (Some "tok"%string) /\
             servers (app w') = [] /\ resources (app w') = ∅.
Proof.
  apply (fetch_failure_keeps_catalogue down_env
           (set_session_token App_default (Some "tok"%string)) [] [] "tok").
  - reflexivity.
  - left; reflexivity.
Defined.

(* ------------------------------------------------------------------ *)
(** ** The string order, [sort] and [dedup] *)

Lemma str_le_iff (s t : string) :
  str_le s t <-> s = t \/ String_as_OT.lt s t.
Proof.
  unfold str_le.
  destruct (String_as_OT.compare_spec s t) as [H|H|H].
  - split; [auto|discriminate].
  - split; [auto|discriminate].
  - split; [intros C; exfalso; apply C; reflexivity|].
    intros [-> | Hlt]; exfalso.
    + eapply (StrictOrder_Irreflexive (R:=String_as_OT.lt)); eassumption.
    + eapply (StrictOrder_Irreflexive (R:=String_as_OT.lt)).
      eapply (StrictOrder_Transitive (R:=String_as_OT.lt)); [exact Hlt|exact H].
Qed.

Global Instance str_le_total : Total str_le.
Proof.
  intros s t. destruct (String_as_OT.compare_spec s t) as [H|H|H].
  - left; apply str_le_iff; auto.
  - left; apply str_le_iff; auto.
  - right; apply str_le_iff; auto.
Qed.

Global Instance str_le_trans : Transitive str_le.
Proof.
  intros s t u Hst Htu. apply str_le_iff in Hst, Htu. apply str_le_iff.
  destruct Hst as [-> | Hst]; [auto|].
  destruct Htu as [<- | Htu]; [auto|].
  right; eapply (StrictOrder_Transitive (R:=String_as_OT.lt)); eassumption.
Qed.

Lemma str_le_antisymm (s t : string) : str_le s t -> str_le t s -> s = t.
Proof.
  intros Hst Hts. apply str_le_iff in Hst, Hts.
  destruct Hst as [-> | Hst]; [auto|]. destruct Hts as [-> | Hts]; [auto|].
  exfalso. eapply (StrictOrder_Irreflexive (R:=String_as_OT.lt)).
  eapply (StrictOrder_Transitive (R:=String_as_OT.lt)); eassumption.
Qed.

Lemma sort_sorted (l : list string) : StronglySorted str_le (sort l).
Proof. apply (StronglySorted_merge_sort str_le); typeclasses eauto. Qed.

Lemma sort_In (l : list string) (x : string) : In x (sort l) <-> In x l.
Proof.
  unfold sort. rewrite <- !list_elem_of_In.
  apply elem_of_Permutation_proper, merge_sort_Permutation.
Qed.

Lemma dedup_from_In (p : string) (l : list string) (y : string) :
  In y (dedup_from p l) \/ p = y <-> In y l \/ p = y.
Proof.
  revert p. induction l as [|x l IH]; intros p; cbn; [tauto|].
  destruct (String.eqb_spec x p) as [->|Hne].
  - rewrite IH. tauto.
  - cbn. specialize (IH x). tauto.
Qed.

Lemma dedup_In (l : list string) (y : string) : In y (dedup l) <-> In y l.
Proof.
  destruct l as [|x l]; cbn; [tauto|].
  pose proof (dedup_from_In x l y). tauto.
Qed.

Lemma dedup_from_sorted (p : string) (l : list string) :
  StronglySorted str_le (p :: l) ->
  StronglySorted str_le (dedup_from p l) /\ NoDup (dedup_from p l) /\
  (forall y, In y (dedup_from p l) -> str_le p y /\ y <> p).
Proof.
  revert p. induction l as [|x l IH]; intros p Hs.
  - cbn. split; [constructor|split; [constructor|intros y []]].
  - inversion Hs as [|? ? Hxl Hpx]; subst.
    inversion Hpx as [|? ? Hle_px Hpl]; subst.
    cbn. destruct (String.eqb_spec x p) as [->|Hne].
    + apply IH. constructor; [inversion Hxl; auto|auto].
    + destruct (IH x Hxl) as (HS & HN & Hy).
      split; [|split].
      * constructor; [exact HS|]. apply Forall_forall. intros y Hin.
        apply list_elem_of_In in Hin. apply Hy; exact Hin.
      * constructor; [|exact HN]. intros Hin.
        apply list_elem_of_In, Hy in Hin. tauto.
      * intros y [<- | Hin]; [auto|].
        destruct (Hy y Hin) as [Hxy Hyx]. split; [etransitivity; eauto|].
        intros ->. apply Hne. apply str_le_antisymm; auto.
Qed.

(** [sort] then [dedup]: sorted, without duplicates, same elements. *)
Lemma sort_dedup_spec (l : list string) :
  StronglySorted str_le (dedup (sort l)) /\ NoDup (dedup (sort l)) /\
  (forall y, In y (dedup (sort l)) <-> In y l).
Proof.
  split; [|split]; [| |intros y; rewrite dedup_In, sort_In; tauto].
  - pose proof (sort_sorted l) as Hs. destruct (sort l) as [|x l'];
      cbn; [constructor|].
    destruct (dedup_from_sorted x l' Hs) as (HS & _ & Hy).
    constructor; [exact HS|]. apply Forall_forall. intros y Hin.
    apply list_elem_of_In in Hin. apply Hy; exact Hin.
  - pose proof (sort_sorted l) as Hs. destruct (sort l) as [|x l'];
      cbn; [constructor|].
    destruct (dedup_from_sorted x l' Hs) as (_ & HN & Hy).
    constructor; [|exact HN]. intros Hin.
    apply list_elem_of_In, Hy in Hin. tauto.
Qed.

(* ------------------------------------------------------------------ *)
(** ** The fold of a fetch pass *)

(** The display name of a zipped (info, identifier) pair, if it has one. *)
Definition pair_name (p : ConnectionInfo * string) : option string :=
  head (name p.1).

(** The names the pass appends, in order. *)
Fixpoint names_of (pairs : list (ConnectionInfo * string)) : list string :=
  match pairs with
  | [] => []
  | p :: ps => match pair_name p with
               | Some n => n :: names_of ps
               | None => names_of ps
               end
  end.

(** The identifiers discovered for name [nm], in discovery order. *)
Fixpoint ids_named (nm : string) (pairs : list (ConnectionInfo * string))
    : list string :=
  match pairs with
  | [] => []
  | p :: ps => match pair_name p with
               | Some n => if String.eqb n nm then p.2 :: ids_named nm ps
                           else ids_named nm ps
               | None => ids_named nm ps
               end
  end.

Lemma fold_left_step_spec (pairs : list (ConnectionInfo * string))
    (srv : list string) (res : gmap string (list string)) :
  (fold_left fold_step pairs (srv, res)).1 = srv ++ names_of pairs /\
  (forall nm, (fold_left fold_step pairs (srv, res)).2 !! nm =
     match ids_named nm pairs with
     | [] => res !! nm
     | l => Some (default [] (res !! nm) ++ l)
     end).
Proof.
  revert srv res. induction pairs as [|[info cid] ps IH]; intros srv res.
  - cbn. rewrite app_nil_r. split; [reflexivity|]. intros; reflexivity.
  - cbn. unfold pair_name at 1 2. cbn.
    destruct (head (name info)) as [sn|] eqn:Hh.
    + destruct (IH (srv ++ [sn])
                  (<[sn:=default [] (res !! sn) ++ [cid]]> res)) as [H1 H2].
      split; [rewrite H1, <- app_assoc; reflexivity|].
      intros nm. rewrite H2.
      destruct (String.eqb_spec sn nm) as [<-|Hne].
      * rewrite lookup_insert_eq. cbn.
        destruct (ids_named sn ps); [reflexivity|].
        rewrite <- app_assoc. reflexivity.
      * rewrite lookup_insert_ne by congruence. reflexivity.
    + destruct (IH srv res) as [H1 H2]. split; [exact H1|].
      intros nm. rewrite H2. reflexivity.
Qed.

Lemma names_of_ids_named (pairs : list (ConnectionInfo * string))
    (nm : string) :
  In nm (names_of pairs) -> ids_named nm pairs <> [].
Proof.
  induction pairs as [|p ps IH]; cbn; [tauto|].
  destruct (pair_name p) as [n|] eqn:Hn.
  - intros [<- | Hin].
    + rewrite String.eqb_refl. discriminate.
    + destruct (String.eqb n nm); [discriminate|auto].
  - auto.
Qed.

(** A successful fetch: the app after it, computed from the two decoded
    replies. *)
Lemma fetch_connections_ok (E : Env) (a : App)
    (es : list (result Event IoError)) (o : list Output)
    (token : string) (connection_ids : list string)
    (infos : list ConnectionInfo)
    (Htoken : session_token a = Some token)
    (Hq : decode_reply E de_query (http E (query_request token))
          = Ok connection_ids)
    (Hi : decode_reply E de_info_response
            (http E (info_request token connection_ids)) = Ok infos) :
  exists w', fetch_connections E (mkWorld a es o) = Done (Ok tt) w' /\
    app w' = set_catalogue a
      (dedup (sort (fold_infos (servers a) (resources a) infos connection_ids).1))
      (fold_infos (servers a) (resources a) infos connection_ids).2.
Proof.
  unfold fetch_connections; unfold_M. rewrite Htoken. cbn. rewrite Hq. cbn.
  rewrite Hi. cbn.
  destruct (fold_infos (servers a) (resources a) infos connection_ids)
    as [srv res].
  eexists; split; reflexivity.
Qed.

(* ------------------------------------------------------------------ *)
(** ** Duplicate display names *)

(** C4: after a successful fetch the name sequence is sorted, every name
    appended by the pass (or present before) occurs in it exactly once, it
    holds no other name, and the entry of each name is its previous entry
    followed by all the identifiers discovered for that name, in discovery
    order (on the first run: exactly those identifiers). *)
Theorem fetch_merges_duplicate_names (E : Env) (a : App)
    (es : list (result Event IoError)) (o : list Output)
    (token : string) (connection_ids : list string)
    (infos : list ConnectionInfo)
    (Htoken : session_token a = Some token)
    (Hq : decode_reply E de_query (http E (query_request token))
          = Ok connection_ids)
    (Hi : decode_reply E de_info_response
            (http E (info_request token connection_ids)) = Ok infos) :
  exists w', fetch_connections E (mkWorld a es o) = Done (Ok tt) w' /\
    StronglySorted str_le (servers (app w')) /\
    (forall nm, In nm (servers a) \/
                In nm (names_of (combine infos connection_ids)) ->
       count_occ string_dec (servers (app w')) nm = 1) /\
    (forall nm, In nm (servers (app w')) ->
       In nm (servers a) \/ In nm (names_of (combine infos connection_ids))) /\
    (forall nm, resources (app w') !! nm =
       match ids_named nm (combine infos connection_ids) with
       | [] => resources a !! nm
       | l => Some (default [] (resources a !! nm) ++ l)
       end).
Proof.
  destruct (fetch_connections_ok E a es o token connection_ids infos
              Htoken Hq Hi) as [w' [Hrun Happ]].
  exists w'. split; [exact Hrun|]. rewrite Happ. unfold set_catalogue; cbn.
  unfold fold_infos.
  destruct (fold_left_step_spec (combine infos connection_ids)
              (servers a) (resources a)) as [H1 H2].
  rewrite H1.
  destruct (sort_dedup_spec (servers a ++ names_of (combine infos connection_ids)))
    as (HS & HN & HIn).
  split; [exact HS|]. split; [|split].
  - intros nm Hnm.
    apply (proj1 (NoDup_count_occ' string_dec _)).
    + apply NoDup_ListNoDup; exact HN.
    + apply HIn, in_or_app; exact Hnm.
  - intros nm Hnm. apply HIn, in_app_or in Hnm. exact Hnm.
  - exact H2.
Qed.

(** The scenario: the query finds [a1] and [a2], both named [web1]. *)
Definition scenario_app : App := set_session_token App_default (Some "tok"%string).

Lemma fetch_merges_duplicate_names_witness :
  exists w', fetch_connections sample_env (mkWorld scenario_app [] [])
             = Done (Ok tt) w' /\
    StronglySorted str_le (servers (app w')) /\
    (forall nm, In nm [] \/
       In nm (names_of (combine [mkConnectionInfo ["web1"%string] None;
                                 mkConnectionInfo ["web1"%string] None]
                                ["a1"%string; "a2"%string])) ->
       count_occ string_dec (servers (app w')) nm = 1) /\
    (forall nm, In nm (servers (app w')) ->
       In nm [] \/
       In nm (names_of (combine [mkConnectionInfo ["web1"%string] None;
                                 mkConnectionInfo ["web1"%string] None]
                                ["a1"%string; "a2"%string]))) /\
    (forall nm, resources (app w') !! nm =
       match ids_named nm (combine [mkConnectionInfo ["web1"%string] None;
                                    mkConnectionInfo ["web1"%string] None]
                                   ["a1"%string; "a2"%string]) with
       | [] => (∅ : gmap string (list string)) !! nm
       | l => Some (default [] ((∅ : gmap string (list string)) !! nm) ++ l)
       end).
Proof.
  apply (fetch_merges_duplicate_names sample_env scenario_app [] [] "tok");
    vm_compute; reflexivity.
Defined.

(** Running the scenario: one name [web1], mapped to [a1; a2]. *)
Example fetch_scenario_result :
  exists w', fetch_connections sample_env (mkWorld scenario_app [] [])
             = Done (Ok tt) w' /\
    servers (app w') = ["web1"%string] /\
    resources (app w') !! "web1"%string = Some ["a1"%string; "a2"%string].
Proof. eexists; split; [reflexivity|]. split; vm_compute; reflexivity. Qed.

(* ------------------------------------------------------------------ *)
(** ** The catalogue invariant *)

(** Every listed name has at least one identifier. *)
Definition catalogue_inv (a : App) : Prop :=
  forall nm, In nm (servers a) ->
  exists cid cids, resources a !! nm = Some (cid :: cids).

(** [r'] only appends to the entries of [r]. *)
Definition appended (r r' : gmap string (list string)) : Prop :=
  forall k l, r !! k = Some l -> exists l', r' !! k = Some (l ++ l').

Lemma appended_refl (r : gmap string (list string)) : appended r r.
Proof. intros k l H. exists []. rewrite app_nil_r. exact H. Qed.

Lemma fold_step_appended (st : list string * gmap string (list string))
    (p : ConnectionInfo * string) : appended st.2 (fold_step st p).2.
Proof.
  destruct st as [srv res], p as [info cid]. cbn.
  destruct (head (name info)) as [sn|]; [|apply appended_refl].
  intros k l Hk. cbn. destruct (String.eqb_spec sn k) as [<-|Hne].
  - rewrite lookup_insert_eq, Hk. exists [cid]. reflexivity.
  - rewrite lookup_insert_ne by exact Hne. exists []. rewrite app_nil_r.
    exact Hk.
Qed.

(** C9: the initial app satisfies the invariant; a fetch pass, whatever
    its outcome, keeps it and only appends to the entries of the mapping;
    and so does every single step of the pass. *)
Theorem fetch_catalogue_invariant (E : Env) (w w' : World)
    (r : result unit ReqError)
    (Hinv : catalogue_inv (app w))
    (Hrun : fetch_connections E w = Done r w') :
  catalogue_inv (app w') /\ appended (resources (app w)) (resources (app w')) /\
  (forall st p, appended st.2 (fold_step st p).2) /\
  catalogue_inv App_default.
Proof.
  split; [|split; [|split]].
  3: exact fold_step_appended.
  3: intros nm [].
  all: destruct w as [a es o]; cbn in Hinv |- *.
  all: unfold fetch_connections in Hrun; unfold_M.
  all: destruct (session_token a) as [token|];
         [|injection Hrun as _ <-; cbn; solve [auto using appended_refl]].
  all: destruct (decode_reply E de_query (http E (query_request token)))
         as [ids|e1]; cbn in Hrun;
         [|injection Hrun as _ <-; cbn; solve [auto using appended_refl]].
  all: destruct (decode_reply E de_info_response (http E (info_request token ids)))
         as [infos|e2]; cbn in Hrun;
         [|injection Hrun as _ <-; cbn; solve [auto using appended_refl]].
  all: destruct (fold_left_step_spec (combine infos ids) (servers a)
                   (resources a)) as [H1 H2].
  all: unfold fold_infos in Hrun.
  all: destruct (fold_left fold_step (combine infos ids) (servers a, resources a))
         as [srv res]; cbn in H1, H2.
  all: injection Hrun as _ <-; unfold set_catalogue; cbn.
  - intros nm Hnm. apply (proj2 (proj2 (sort_dedup_spec srv))) in Hnm.
    subst srv.
    rewrite H2. apply in_app_or in Hnm as [Hold | Hnew].
    + destruct (Hinv nm Hold) as (cid & cids & Hc). rewrite Hc.
      destruct (ids_named nm (combine infos ids)) as [|x xs]; cbn; eauto.
    + apply names_of_ids_named in Hnew.
      destruct (ids_named nm (combine infos ids)) as [|x xs]; [congruence|].
      destruct (default [] (resources a !! nm)) as [|y ys]; cbn; eauto.
  - intros k l Hk. rewrite H2, Hk.
    destruct (ids_named k (combine infos ids)) as [|x xs].
    + exists []. rewrite app_nil_r. reflexivity.
    + eexists; reflexivity.
Qed.

Lemma fetch_catalogue_invariant_witness :
  exists w', fetch_connections sample_env (mkWorld scenario_app [] [])
             = Done (Ok tt) w' /\
  catalogue_inv (app w') /\ appended ∅ (resources (app w')) /\
  (forall st p, appended st.2 (fold_step st p).2) /\
  catalogue_inv App_default.
Proof.
  eexists. split; [reflexivity|].
  eapply (fetch_catalogue_invariant sample_env (mkWorld scenario_app [] [])
            _ (Ok tt)).
  - intros nm [].
  - reflexivity.
Defined.

(* ------------------------------------------------------------------ *)
(** ** Handshake failures *)

Definition missing_key_msg : string :=
  "XPIPE_API_KEY environment variable not set: NotPresent".

(** C2 (counterexample): with no [XPIPE_API_KEY], [run] does not go on in
    a degraded mode: [handshake]'s [.expect(..)] panics. *)
Lemma missing_key_run_panics :
  run (Sample.env None (FzfExited false None))
      (mkWorld App_default [press (KChar "q"%char)] [])
  = Panicked missing_key_msg
      (mkWorld App_default [press (KChar "q"%char)] []).
Proof. reflexivity. Qed.

(** C2 (amended): with no [XPIPE_API_KEY], [handshake] and so [run] panic
    before the event loop.  With a key, a failed handshake (transport
    error, unreadable body, or a body that does not decode) is an [Err];
    [run] then writes the fixed line "Error during handshake." to stderr
    and enters the event loop with the app unchanged: no session token, and
    from [App::default()] an empty catalogue. *)
Theorem handshake_failure_modes (E : Env) (a : App)
    (es : list (result Event IoError)) (o : list Output) :
  (env_var E "XPIPE_API_KEY" = None ->
     handshake E (mkWorld a es o) = Panicked missing_key_msg (mkWorld a es o) /\
     run E (mkWorld a es o) = Panicked missing_key_msg (mkWorld a es o)) /\
  (forall api_key err,
     env_var E "XPIPE_API_KEY" = Some api_key ->
     decode_reply E de_handshake (http E (handshake_request api_key)) = Err err ->
     handshake E (mkWorld a es o)
     = Done (Err err) (mkWorld a es (o ++ [OPost (handshake_request api_key)])) /\
     run E (mkWorld a es o)
     = run_loop E (S (length es))
         (mkWorld a es (o ++ [OPost (handshake_request api_key);
                              OStderr "Error during handshake."]))).
Proof.
  split.
  - intros Hkey.
    assert (Hh : handshake E (mkWorld a es o)
                 = Panicked missing_key_msg (mkWorld a es o)).
    { unfold handshake. rewrite Hkey. reflexivity. }
    split; [exact Hh|].
    unfold run, run_setup; unfold_M. rewrite Hh. reflexivity.
  - intros api_key err Hkey Hdec.
    assert (Hh : handshake E (mkWorld a es o)
                 = Done (Err err)
                     (mkWorld a es (o ++ [OPost (handshake_request api_key)]))).
    { unfold handshake. rewrite Hkey. unfold_M. rewrite Hdec. reflexivity. }
    split; [exact Hh|].
    unfold run, run_setup; unfold_M. rewrite Hh. cbn.
    rewrite <- app_assoc. reflexivity.
Qed.

Lemma handshake_failure_modes_witness :
  (env_var (Sample.env None (FzfExited false None)) "XPIPE_API_KEY" = None ->
     handshake (Sample.env None (FzfExited false None))
       (mkWorld App_default [] [])
     = Panicked missing_key_msg (mkWorld App_default [] []) /\
     run (Sample.env None (FzfExited false None)) (mkWorld App_default [] [])
     = Panicked missing_key_msg (mkWorld App_default [] [])) /\
  env_var down_env "XPIPE_API_KEY" = Some "k"%string /\
  decode_reply down_env de_handshake (http down_env (handshake_request "k"))
    = Err (ReqSend "connection refused") /\
  run down_env (mkWorld App_default [] [])
  = run_loop down_env 1
      (mkWorld App_default [] ([] ++ [OPost (handshake_request "k");
                                      OStderr "Error during handshake."])).
Proof.
  split; [exact (proj1 (handshake_failure_modes _ App_default [] []))|].
  split; [reflexivity|]. split; [reflexivity|].
  apply (proj2 (handshake_failure_modes down_env App_default [] []) "k"
           (ReqSend "connection refused")); reflexivity.
Defined.

(* ------------------------------------------------------------------ *)
(** ** The fuzzy-filter bridge *)

(** [open_terminal_session] takes [&self]: it never changes the app. *)
Lemma open_terminal_session_app (E : Env) (self : App) (uuid : string)
    (w w' : World) (x : unit) :
  open_terminal_session E self uuid w = Done x w' -> app w' = app w.
Proof.
  destruct w as [a es o]. unfold open_terminal_session.
  destruct (session_token self) as [token|]; unfold_M;
    [|intros H; injection H as _ <-; reflexivity].
  destruct (http E (terminal_request token uuid)) as [err|status body]; cbn;
    [|destruct (is_success status); cbn];
    destruct es; cbn; try discriminate; intros H; injection H as _ <-;
    reflexivity.
Qed.

(** [fzf_search] never changes the app on a path that returns. *)
Lemma fzf_search_app (E : Env) (w w' : World) :
  fzf_search E w = Done tt w' -> app w' = app w.
Proof.
  destruct w as [a es o]. unfold fzf_search; unfold_M.
  destruct (fzf E (join nl (servers a))) as [e|e|e|[|] [s|]]; cbn;
    try discriminate; try (intros H; injection H as <-; reflexivity).
  destruct (resources a !! trim s) as [[|cid rest]|]; cbn;
    try (intros H; injection H as <-; reflexivity).
  intros H. apply open_terminal_session_app in H. exact H.
Qed.

Definition fzf_spawn_error : string := "No such file or directory (os error 2)".

(** C3 (counterexample): when [fzf] cannot be spawned, pressing [/] does
    not leave the browser running: [.expect(..)] panics. *)
Lemma fzf_spawn_failure_panics :
  handle_events (Sample.env (Some "k"%string) (FzfSpawnFailed fzf_spawn_error))
    (mkWorld sample_app [press (KChar "/"%char)] [])
  = Panicked ("Failed to spawn fzf process: " ++ fzf_spawn_error)
      (mkWorld sample_app [] [OFzf "web1"]).
Proof. reflexivity. Qed.

(** C3 (amended): whenever handling [/] returns, the app (servers,
    resources, cursor, view flags, exit flag) is unchanged, so the browser
    keeps running; a non-zero exit of [fzf], and an empty trimmed output
    when no catalogue name is empty, only log a line to stderr.  A failure
    to spawn [fzf], or to collect its output, panics instead. *)
Theorem fzf_no_match_keeps_state (E : Env) (a : App)
    (es : list (result Event IoError)) (o : list Output) :
  (forall r w', handle_events E (mkWorld a (press (KChar "/"%char) :: es) o)
                = Done r w' -> r = Ok tt /\ app w' = a) /\
  (forall stdout, fzf E (join nl (servers a)) = FzfExited false stdout ->
     fzf_search E (mkWorld a es o)
     = Done tt (mkWorld a es (o ++ [OFzf (join nl (servers a));
                  OStderr "No selection made or fzf process failed."]))) /\
  (forall s, fzf E (join nl (servers a)) = FzfExited true (Some s) ->
     trim s = EmptyString -> resources a !! EmptyString = None ->
     fzf_search E (mkWorld a es o)
     = Done tt (mkWorld a es (o ++ [OFzf (join nl (servers a));
                  OStderr "Selected server not found in resources."]))) /\
  (forall e, fzf E (join nl (servers a)) = FzfSpawnFailed e \/
             fzf E (join nl (servers a)) = FzfWaitFailed e ->
     exists msg, fzf_search E (mkWorld a es o)
                 = Panicked msg (mkWorld a es (o ++ [OFzf (join nl (servers a))]))).
Proof.
  split; [|split; [|split]].
  - intros r w' H. unfold handle_events, press in H; unfold_M.
    destruct (fzf_search E (mkWorld a es o)) as [[] w1| |] eqn:Hf;
      try discriminate.
    injection H as <- <-. split; [reflexivity|].
    apply fzf_search_app in Hf. exact Hf.
  - intros stdout Hfzf. unfold fzf_search; unfold_M. rewrite Hfzf.
    cbn. rewrite <- app_assoc. reflexivity.
  - intros s Hfzf Htrim Hempty. unfold fzf_search; unfold_M. rewrite Hfzf.
    cbn. rewrite Htrim, Hempty. cbn. rewrite <- app_assoc. reflexivity.
  - intros e [Hfzf|Hfzf]; unfold fzf_search; unfold_M; rewrite Hfzf;
      eexists; reflexivity.
Qed.

Lemma fzf_no_match_keeps_state_witness :
  (forall r w', handle_events sample_env
                  (mkWorld sample_app [press (KChar "/"%char)] []) = Done r w' ->
     r = Ok tt /\ app w' = sample_app) /\
  fzf (Sample.env (Some "k"%string) (FzfExited false None)) "web1"
    = FzfExited false None /\
  fzf_search (Sample.env (Some "k"%string) (FzfExited false None))
    (mkWorld sample_app [] [])
  = Done tt (mkWorld sample_app [] ([] ++ [OFzf "web1";
               OStderr "No selection made or fzf process failed."])).
Proof.
  split; [exact (proj1 (fzf_no_match_keeps_state _ sample_app [] []))|].
  split; [reflexivity|].
  apply (proj1 (proj2 (fzf_no_match_keeps_state
            (Sample.env (Some "k"%string) (FzfExited false None))
            sample_app [] [])) None).
  reflexivity.
Defined.

(* ------------------------------------------------------------------ *)
(** ** A failed terminal launch *)

(** What Confirm writes when the launch answers [status] with [body] and
    [status] is not a success. *)
Definition launch_failure_output (token cid body : string) : list Output :=
  [OClear; OStdout ("Connecting to " ++ cid ++ "...")%string;
   OPost (terminal_request token cid);
   OStderr ("Error opening terminal session:" ++ nl ++ body)%string;
   OStdout "Press any key to return..."].

(** C6 (code bug): after a refused launch the body is shown under
    "Error opening terminal session:" and "Press any key to return..." is
    printed, but [let _ = event::read()] accepts any event: a terminal
    resize, with no key pressed, dismisses the message and resumes the
    view. *)
Lemma launch_failure_resumes_on_resize :
  handle_events sample_env
    (mkWorld sample_app [press KEnter; Ok (EvResize 80 24)] [])
  = Done (Ok tt) (mkWorld sample_app []
                    (launch_failure_output "tok" "a1" "connection refused")).
Proof. reflexivity. Qed.

(* ================================================================== *)
(** * Further properties of the program *)

(** How one [handle_events] call can change the app: not at all, by
    setting the exit flag, or by moving the cursor one step within the
    guards of the Move-down and Move-up arms. *)
Lemma handle_events_app (E : Env) (w w' : World) (r : result unit IoError) :
  handle_events E w = Done r w' ->
  app w' = app w \/ app w' = set_exit (app w) true \/
  (app w' = set_selected_index (app w) (S (selected_index (app w))) /\
   S (selected_index (app w)) < length (servers (app w))) \/
  (app w' = set_selected_index (app w) (selected_index (app w) - 1) /\
   0 < selected_index (app w)).
Proof.
  destruct w as [a es o]. unfold handle_events; unfold_M.
  destruct es as [|[ev|e] es]; [discriminate| |].
  2: { intros H; injection H as _ <-; left; reflexivity. }
  destruct ev as [| |[c kd]| | |];
    try (intros H; injection H as _ <-; left; reflexivity).
  destruct kd;
    [|destruct c as [| | |c|n]; try destruct c as [[] [] [] [] [] [] [] []];
      cbn; intros H; injection H as _ <-; left; reflexivity ..].
  destruct c as [| | |c|n]; cbn -[Nat.ltb Nat.leb].
  - destruct (Nat.ltb_spec (S (selected_index a)) (length (servers a))) as [Hl|Hl];
      intros H; injection H as _ <-; cbn; auto.
  - destruct (Nat.ltb_spec 0 (selected_index a)) as [Hl|Hl];
      intros H; injection H as _ <-; cbn; auto.
  - destruct (servers a !! selected_index a) as [server|]; cbn; [|discriminate].
    destruct (resources a !! server) as [[|cid rest]|]; cbn;
      try (intros H; injection H as _ <-; left; reflexivity).
    destruct (open_terminal_session E a cid {| app := a; events := es; out := o |})
      as [[] w1| |] eqn:Ho; try discriminate.
    intros H; injection H as _ <-. left.
    apply open_terminal_session_app in Ho. exact Ho.
  - destruct c as [[] [] [] [] [] [] [] []]; cbn -[Nat.ltb Nat.leb];
      try (intros H; injection H as _ <-; left; reflexivity);
      try (destruct (Nat.ltb_spec (S (selected_index a)) (length (servers a))) as [Hl|Hl];
           intros H; injection H as _ <-; cbn; auto; fail);
      try (destruct (Nat.ltb_spec 0 (selected_index a)) as [Hl|Hl];
           intros H; injection H as _ <-; cbn; auto; fail);
      try (intros H; injection H as _ <-; cbn; auto; fail).
    all: destruct (fzf_search E {| app := a; events := es; out := o |})
           as [[] w1| |] eqn:Hf; try discriminate.
    all: intros H; injection H as _ <-; left; apply fzf_search_app in Hf;
           exact Hf.
  - intros H; injection H as _ <-; left; reflexivity.
Qed.

Lemma open_terminal_session_no_panic (E : Env) (self : App) (uuid : string)
    (w w' : World) (msg : string) :
  open_terminal_session E self uuid w <> Panicked msg w'.
Proof.
  destruct w as [a es o]. unfold open_terminal_session.
  destruct (session_token self) as [token|]; unfold_M; [|discriminate].
  destruct (http E (terminal_request token uuid)) as [err|status body]; cbn;
    [|destruct (is_success status); cbn]; destruct es; cbn; discriminate.
Qed.

Lemma fzf_search_panic (E : Env) (w w' : World) (msg : string) :
  fzf_search E w = Panicked msg w' ->
  exists e, msg = ("Failed to spawn fzf process: " ++ e)%string \/
            msg = ("Failed to read fzf output: " ++ e)%string.
Proof.
  destruct w as [a es o]. unfold fzf_search; unfold_M.
  destruct (fzf E (join nl (servers a))) as [e|e|e|[|] [s|]]; cbn;
    try discriminate; try (intros H; injection H as <- _; eauto; fail).
  destruct (resources a !! trim s) as [[|cid rest]|]; cbn; try discriminate.
  intros H. exfalso. eapply open_terminal_session_no_panic; exact H.
Qed.

(** When one [handle_events] call can panic: Confirm with the cursor
    outside the list (an index panic), or [/] when [fzf] cannot be spawned
    or waited for (the two [.expect] messages). *)
Lemma handle_events_panic (E : Env) (w w' : World) (msg : string) :
  handle_events E w = Panicked msg w' ->
  (servers (app w) !! selected_index (app w) = None /\
   msg = "index out of bounds"%string) \/
  (exists e, msg = ("Failed to spawn fzf process: " ++ e)%string \/
             msg = ("Failed to read fzf output: " ++ e)%string).
Proof.
  destruct w as [a es o]. unfold handle_events; unfold_M.
  destruct es as [|[ev|e] es]; try discriminate.
  destruct ev as [| |[c kd]| | |]; try discriminate.
  destruct kd;
    [|destruct c as [| | |c|n]; try destruct c as [[] [] [] [] [] [] [] []];
      cbn; discriminate ..].
  destruct c as [| | |c|n]; cbn -[Nat.ltb Nat.leb].
  - destruct (S (selected_index a) <? length (servers a)); cbn; discriminate.
  - destruct (0 <? selected_index a); cbn; discriminate.
  - destruct (servers a !! selected_index a) as [server|] eqn:Hs; cbn.
    + destruct (resources a !! server) as [[|cid rest]|]; cbn;
        try discriminate.
      destruct (open_terminal_session E a cid {| app := a; events := es; out := o |})
        as [| m w1|] eqn:Ho; try discriminate.
      exfalso. eapply open_terminal_session_no_panic; exact Ho.
    + intros H. injection H as <- _. left. split; reflexivity.
  - destruct c as [[] [] [] [] [] [] [] []]; cbn -[Nat.ltb Nat.leb];
      try discriminate;
      try (destruct (S (selected_index a) <? length (servers a)); cbn;
           discriminate);
      try (destruct (0 <? selected_index a); cbn; discriminate).
    destruct (fzf_search E {| app := a; events := es; out := o |})
      as [| m w1|] eqn:Hf; try discriminate.
    intros H. injection H as <- _. right.
    apply fzf_search_panic in Hf. exact Hf.
  - discriminate.
Qed.

(** One iteration of the event loop. *)
Lemma run_loop_S (E : Env) (fuel : nat) (a : App) es o :
  run_loop E (S fuel) (mkWorld a es o) =
  if exit a then Done (Ok tt) (mkWorld a es o) else
  match handle_events E (mkWorld a es (o ++ [ODraw (servers a) (selected_index a)])) with
  | Done (Ok _) w1 => run_loop E fuel w1
  | Done (Err e) w1 => Done (Err e) w1
  | Panicked m w1 => Panicked m w1
  | Blocked w1 => Blocked w1
  end.
Proof.
  cbn [run_loop].
  unfold mbind, mret, M_MBind, M_MRet, M_bind, M_ret, get_app, emit.
  cbn -[handle_events run_loop].
  destruct (exit a); [reflexivity|].
  destruct (handle_events E _) as [[]| |]; reflexivity.
Qed.

(** X: key handling never changes the catalogue ([servers], [resources]),
    the session token, [viewing_resources] or [current_server]: only the
    cursor and the exit flag can change. *)
Theorem handle_events_keeps_catalogue (E : Env) (w w' : World)
    (r : result unit IoError)
    (Hrun : handle_events E w = Done r w') :
  servers (app w') = servers (app w) /\ resources (app w') = resources (app w) /\
  session_token (app w') = session_token (app w) /\
  viewing_resources (app w') = viewing_resources (app w) /\
  current_server (app w') = current_server (app w).
Proof.
  apply handle_events_app in Hrun.
  destruct Hrun as [H | [H | [[H _] | [H _]]]]; rewrite H;
    destruct (app w); repeat split.
Qed.

Lemma handle_events_keeps_catalogue_witness :
  servers sample_app = servers sample_app /\
  resources sample_app = resources sample_app /\
  session_token sample_app = session_token sample_app /\
  viewing_resources sample_app = viewing_resources sample_app /\
  current_server sample_app = current_server sample_app.
Proof.
  apply (handle_events_keeps_catalogue sample_env
           (mkWorld sample_app [press KUp] []) (mkWorld sample_app [] [])
           (Ok tt)).
  reflexivity.
Defined.

(** X: a cursor inside the list stays inside it across any key handling. *)
Theorem handle_events_cursor_in_range (E : Env) (w w' : World)
    (r : result unit IoError)
    (Hidx : selected_index (app w) < length (servers (app w)))
    (Hrun : handle_events E w = Done r w') :
  selected_index (app w') < length (servers (app w')).
Proof.
  apply handle_events_app in Hrun.
  destruct Hrun as [H | [H | [[H Hl] | [H Hl]]]]; rewrite H;
    destruct (app w); cbn in *; lia.
Qed.

Lemma handle_events_cursor_in_range_witness :
  selected_index (app (mkWorld sample_app [press KDown] [])) <
    length (servers (app (mkWorld sample_app [press KDown] []))) /\
  selected_index sample_app < length (servers sample_app).
Proof.
  split; [cbn; lia|].
  apply (handle_events_cursor_in_range sample_env
           (mkWorld sample_app [press KDown] []) (mkWorld sample_app [] [])
           (Ok tt)); [cbn; lia | reflexivity].
Defined.

(** X: the event loop only ends with [Ok] once the exit flag is set. *)
Theorem run_loop_ok_only_on_exit (E : Env) (fuel : nat) (w w' : World)
    (Hrun : run_loop E fuel w = Done (Ok tt) w') :
  exit (app w') = true.
Proof.
  revert w Hrun. induction fuel as [|fuel IH]; intros w Hrun; [discriminate|].
  destruct w as [a es o]. rewrite run_loop_S in Hrun.
  destruct (exit a) eqn:He.
  - injection Hrun as <-. exact He.
  - destruct (handle_events E (mkWorld a es (o ++ [ODraw (servers a) (selected_index a)])))
      as [[[]|e] w1| |]; try discriminate.
    eapply IH; exact Hrun.
Qed.

Lemma run_loop_ok_only_on_exit_witness :
  exit (set_exit sample_app true) = true.
Proof.
  apply (run_loop_ok_only_on_exit sample_env 2
           (mkWorld sample_app [press (KChar "q"%char)] [])
           (mkWorld (set_exit sample_app true) []
              [ODraw (servers sample_app) (selected_index sample_app)])).
  reflexivity.
Defined.

(** X: with the cursor inside the list, the event loop never panics on
    the index [self.servers[self.selected_index]]: the catalogue and the
    cursor range are kept from one iteration to the next, and the other
    panics of the loop carry the [.expect] messages of [fzf_search]. *)
Theorem run_loop_no_index_panic (E : Env) (fuel : nat) (w : World)
    (Hidx : selected_index (app w) < length (servers (app w))) :
  forall w', run_loop E fuel w <> Panicked "index out of bounds" w'.
Proof.
  revert w Hidx. induction fuel as [|fuel IH]; intros w Hidx w';
    [discriminate|].
  destruct w as [a es o]. rewrite run_loop_S.
  destruct (exit a); [discriminate|].
  destruct (handle_events E (mkWorld a es (o ++ [ODraw (servers a) (selected_index a)])))
    as [[[]|e] w1| m w1|] eqn:Hh; try discriminate.
  - apply IH. apply handle_events_cursor_in_range in Hh; [exact Hh|exact Hidx].
  - intros Hm. injection Hm as -> _.
    apply handle_events_panic in Hh. cbn in Hh, Hidx.
    destruct Hh as [[Hnone _] | [e [He|He]]].
    + apply lookup_lt_is_Some_2 in Hidx. rewrite Hnone in Hidx.
      destruct Hidx; discriminate.
    + discriminate He.
    + discriminate He.
Qed.

Lemma run_loop_no_index_panic_witness :
  run_loop sample_env 3 (mkWorld sample_app [press KEnter; press KDown] []) <>
  Panicked "index out of bounds"%string (mkWorld sample_app [] []).
Proof.
  apply run_loop_no_index_panic. cbn; lia.
Defined.

(** X: pressing [q] sets the exit flag and nothing else; the loop then
    stops with [Ok] after one frame, leaving later events unread. *)
Theorem quit_ends_loop (E : Env) (fuel : nat) (a : App) es o
    (Hexit : exit a = false) :
  run_loop E (S (S fuel)) (mkWorld a (press (KChar "q"%char) :: es) o) =
  Done (Ok tt) (mkWorld (set_exit a true) es
                  (o ++ [ODraw (servers a) (selected_index a)])).
Proof.
  rewrite run_loop_S, Hexit.
  assert (H : handle_events E (mkWorld a (press (KChar "q"%char) :: es)
                 (o ++ [ODraw (servers a) (selected_index a)])) =
              Done (Ok tt) (mkWorld (set_exit a true) es
                 (o ++ [ODraw (servers a) (selected_index a)])))
    by (unfold handle_events; unfold_M; reflexivity).
  rewrite H, run_loop_S. destruct a; reflexivity.
Qed.

Lemma quit_ends_loop_witness :
  exit sample_app = false /\
  run_loop sample_env 2
    (mkWorld sample_app [press (KChar "q"%char); press KDown] []) =
  Done (Ok tt) (mkWorld (set_exit sample_app true) [press KDown]
                  [ODraw (servers sample_app) (selected_index sample_app)]).
Proof.
  split; [reflexivity|].
  apply (quit_ends_loop sample_env 0 sample_app [press KDown] []).
  reflexivity.
Defined.

(** X: an event that no arm of [handle_events] matches (a key released or
    repeated, a key other than Down, Up, Enter, j, k, / and q, or a non-key
    event) is consumed and changes nothing else. *)
Theorem ignored_event_noop (E : Env) (a : App) es o (ev : Event)
    (Hign : match ev with
            | EvKey (mkKeyEvent c Press) =>
                ~ In c [KDown; KUp; KEnter; KChar "j"%char; KChar "k"%char;
                        KChar "/"%char; KChar "q"%char]
            | _ => True
            end) :
  handle_events E (mkWorld a (Ok ev :: es) o) = Done (Ok tt) (mkWorld a es o).
Proof.
  destruct ev as [| |[c kind]| | |];
    try (unfold handle_events; unfold_M; reflexivity).
  destruct c as [| | |ch|n]; try destruct ch as [[] [] [] [] [] [] [] []];
    destruct kind; unfold handle_events; unfold_M; try reflexivity;
    exfalso; apply Hign; cbn; repeat (first [left; reflexivity | right]).
Qed.

Lemma ignored_event_noop_witness :
  ~ In (KChar "x"%char) [KDown; KUp; KEnter; KChar "j"%char; KChar "k"%char;
                         KChar "/"%char; KChar "q"%char] /\
  handle_events sample_env
    (mkWorld sample_app [press (KChar "x"%char); press KDown] []) =
  Done (Ok tt) (mkWorld sample_app [press KDown] []).
Proof.
  assert (Hx : ~ In (KChar "x"%char) [KDown; KUp; KEnter; KChar "j"%char;
                 KChar "k"%char; KChar "/"%char; KChar "q"%char])
    by (cbn; intuition discriminate).
  split; [exact Hx|].
  apply (ignored_event_noop sample_env sample_app [press KDown] []
           (EvKey (mkKeyEvent (KChar "x"%char) Press))).
  exact Hx.
Defined.

(** X: a failed [event::read()] ends the loop with that error ([?]), after
    one frame and with the state unchanged. *)
Theorem read_error_ends_loop (E : Env) (fuel : nat) (a : App) (e : IoError)
    es o (Hexit : exit a = false) :
  run_loop E (S fuel) (mkWorld a (Err e :: es) o) =
  Done (Err e) (mkWorld a es (o ++ [ODraw (servers a) (selected_index a)])).
Proof.
  rewrite run_loop_S, Hexit. unfold handle_events; unfold_M. reflexivity.
Qed.

Lemma read_error_ends_loop_witness :
  exit sample_app = false /\
  run_loop sample_env 1 (mkWorld sample_app [Err (IoErr "eof"); press KDown] []) =
  Done (Err (IoErr "eof")) (mkWorld sample_app [press KDown]
                  [ODraw (servers sample_app) (selected_index sample_app)]).
Proof.
  split; [reflexivity|].
  apply (read_error_ends_loop sample_env 0 sample_app (IoErr "eof") [press KDown] []).
  reflexivity.
Defined.

(** A strictly increasing list is determined by its elements. *)
Lemma sorted_nodup_unique (l1 l2 : list string) :
  StronglySorted str_le l1 -> StronglySorted str_le l2 ->
  NoDup l1 -> NoDup l2 -> (forall y, In y l1 <-> In y l2) -> l1 = l2.
Proof.
  revert l2. induction l1 as [|x l1 IH]; intros l2 Hs1 Hs2 Hn1 Hn2 Hin.
  - destruct l2 as [|y l2]; [reflexivity|].
    exfalso. apply (proj2 (Hin y)). left; reflexivity.
  - destruct l2 as [|y l2]; [exfalso; apply (proj1 (Hin x)); left; reflexivity|].
    apply StronglySorted_inv in Hs1 as [Hs1 Hf1].
    apply StronglySorted_inv in Hs2 as [Hs2 Hf2].
    rewrite Forall_forall in Hf1, Hf2.
    assert (x = y) as <-.
    { destruct (proj1 (Hin x) (or_introl eq_refl)) as [->|Hx]; [reflexivity|].
      destruct (proj2 (Hin y) (or_introl eq_refl)) as [->|Hy]; [reflexivity|].
      apply str_le_antisymm.
      - apply Hf1, list_elem_of_In, Hy.
      - apply Hf2, list_elem_of_In, Hx. }
    inversion Hn1 as [|? ? Hx1 Hn1']; subst.
    inversion Hn2 as [|? ? Hx2 Hn2']; subst.
    f_equal. apply IH; auto.
    intros z. split; intros Hz.
    + destruct (proj1 (Hin z) (or_intror Hz)) as [->|Hz']; [|exact Hz'].
      exfalso; apply Hx1, list_elem_of_In, Hz.
    + destruct (proj2 (Hin z) (or_intror Hz)) as [->|Hz']; [|exact Hz'].
      exfalso; apply Hx2, list_elem_of_In, Hz.
Qed.

(** X: a fetch that discovers only names already listed leaves a sorted,
    duplicate-free name list as it is, while each such name's entry still
    receives the identifiers again: fetching twice with the same replies
    keeps the list and doubles the entries. *)
Theorem refetch_known_names_keeps_list (E : Env) (a : App)
    (es : list (result Event IoError)) (o : list Output)
    (token : string) (connection_ids : list string)
    (infos : list ConnectionInfo)
    (Htoken : session_token a = Some token)
    (Hq : decode_reply E de_query (http E (query_request token))
          = Ok connection_ids)
    (Hi : decode_reply E de_info_response
            (http E (info_request token connection_ids)) = Ok infos)
    (Hsorted : StronglySorted str_le (servers a))
    (Hnodup : NoDup (servers a))
    (Hknown : forall nm, In nm (names_of (combine infos connection_ids)) ->
                         In nm (servers a)) :
  exists w', fetch_connections E (mkWorld a es o) = Done (Ok tt) w' /\
    servers (app w') = servers a /\
    (forall nm, resources (app w') !! nm =
       match ids_named nm (combine infos connection_ids) with
       | [] => resources a !! nm
       | l => Some (default [] (resources a !! nm) ++ l)
       end).
Proof.
  destruct (fetch_connections_ok E a es o token connection_ids infos
              Htoken Hq Hi) as [w' [Hrun Happ]].
  exists w'. split; [exact Hrun|]. rewrite Happ. unfold set_catalogue; cbn.
  unfold fold_infos.
  destruct (fold_left_step_spec (combine infos connection_ids)
              (servers a) (resources a)) as [H1 H2].
  rewrite H1. split; [|exact H2].
  destruct (sort_dedup_spec (servers a ++ names_of (combine infos connection_ids)))
    as (HS & HN & HIn).
  apply sorted_nodup_unique; auto.
  intros y. rewrite HIn, in_app_iff. split; [|tauto].
  intros [Hy|Hy]; auto.
Qed.

Definition refetched_app : App :=
  mkApp ["web1"%string] (<["web1"%string := ["a1"%string; "a2"%string]]> ∅)
        0 false EmptyString false (Some "tok"%string).

Lemma refetch_known_names_keeps_list_witness :
  exists w', fetch_connections sample_env (mkWorld refetched_app [] [])
             = Done (Ok tt) w' /\
    servers (app w') = ["web1"%string] /\
    (forall nm, resources (app w') !! nm =
       match ids_named nm (combine [mkConnectionInfo ["web1"%string] None;
                                    mkConnectionInfo ["web1"%string] None]
                                   ["a1"%string; "a2"%string]) with
       | [] => resources refetched_app !! nm
       | l => Some (default [] (resources refetched_app !! nm) ++ l)
       end).
Proof.
  apply (refetch_known_names_keeps_list sample_env refetched_app [] [] "tok");
    try (vm_compute; reflexivity).
  - repeat constructor.
  - repeat constructor. intros Hin. inversion Hin.
  - vm_compute. intros nm [<-|[<-|[]]]; left; reflexivity.
Defined.

(** X: with a token, launching clears the screen, announces the
    identifier, posts exactly one request (the terminal request for that
    identifier, bearing the token), prints one status line (the success
    line on a 2xx status) and the prompt, then consumes exactly one event;
    the app itself is not touched. *)
Theorem open_terminal_session_trace (E : Env) (self a : App)
    (connection_uuid token : string) (ev : result Event IoError) es o
    (Htoken : session_token self = Some token) :
  exists m,
    open_terminal_session E self connection_uuid (mkWorld a (ev :: es) o) =
    Done tt (mkWorld a es
      (o ++ [OClear; OStdout ("Connecting to " ++ connection_uuid ++ "...")%string;
             OPost (terminal_request token connection_uuid); m;
             OStdout "Press any key to return..."])) /\
    (forall status body,
       http E (terminal_request token connection_uuid) = Resp status body ->
       is_success status = true ->
       m = OStdout ("Terminal session opened successfully for: "
                    ++ connection_uuid)%string).
Proof.
  unfold open_terminal_session. rewrite Htoken. unfold_M.
  destruct (http E (terminal_request token connection_uuid))
    as [err|status body] eqn:Hh; cbn.
  - eexists; split.
    + repeat rewrite <- app_assoc. reflexivity.
    + intros ? ? Hr; discriminate.
  - destruct (is_success status) eqn:Hs; cbn.
    + eexists; split.
      * repeat rewrite <- app_assoc. reflexivity.
      * reflexivity.
    + eexists; split.
      * repeat rewrite <- app_assoc. reflexivity.
      * intros ? ? Hr Hs'. injection Hr as -> _. congruence.
Qed.

Lemma open_terminal_session_trace_witness :
  exists m,
    open_terminal_session sample_env sample_app "a1"
      (mkWorld sample_app [press KUp] []) =
    Done tt (mkWorld sample_app []
      ([] ++ [OClear; OStdout ("Connecting to " ++ "a1" ++ "...")%string;
              OPost (terminal_request "tok" "a1"); m;
              OStdout "Press any key to return..."])) /\
    (forall status body,
       http sample_env (terminal_request "tok" "a1") = Resp status body ->
       is_success status = true ->
       m = OStdout ("Terminal session opened successfully for: " ++ "a1")%string).
Proof.
  apply (open_terminal_session_trace sample_env sample_app sample_app "a1" "tok").
  reflexivity.
Defined.

(** X: with no event pending, a launch blocks on the acknowledgment, after
    the request and the prompt. *)
Theorem open_terminal_session_waits_for_key (E : Env) (self a : App)
    (connection_uuid token : string) o
    (Htoken : session_token self = Some token) :
  exists o', open_terminal_session E self connection_uuid (mkWorld a [] o) =
             Blocked (mkWorld a [] (o ++ o')) /\
             In (OPost (terminal_request token connection_uuid)) o' /\
             last o' = Some (OStdout "Press any key to return...").
Proof.
  unfold open_terminal_session. rewrite Htoken. unfold_M.
  destruct (http E (terminal_request token connection_uuid))
    as [err|status body]; cbn; [|destruct (is_success status); cbn];
    (eexists; split; [repeat rewrite <- app_assoc; reflexivity|];
     split; [cbn; tauto | reflexivity]).
Qed.

Lemma open_terminal_session_waits_for_key_witness :
  exists o', open_terminal_session sample_env sample_app "a1"
               (mkWorld sample_app [] []) =
             Blocked (mkWorld sample_app [] ([] ++ o')) /\
             In (OPost (terminal_request "tok" "a1")) o' /\
             last o' = Some (OStdout "Press any key to return...").
Proof.
  apply (open_terminal_session_waits_for_key sample_env sample_app sample_app
           "a1" "tok").
  reflexivity.
Defined.



(** X: from the initial state, a successful handshake and fetch leave the
    token set, the cursor at 0, the exit flag clear, the names found sorted
    without duplicates and each name's entry exactly its identifiers in
    discovery order; three requests are posted, no input is read, and
    [run] goes on with the event loop from that state. *)
Theorem run_setup_fresh_catalogue (E : Env) es o (key token : string)
    (connection_ids : list string) (infos : list ConnectionInfo)
    (Hkey : env_var E "XPIPE_API_KEY" = Some key)
    (Hh : decode_reply E de_handshake (http E (handshake_request key))
          = Ok token)
    (Hq : decode_reply E de_query (http E (query_request token))
          = Ok connection_ids)
    (Hi : decode_reply E de_info_response
            (http E (info_request token connection_ids)) = Ok infos) :
  exists a',
    run_setup E (mkWorld App_default es o) =
      Done tt (mkWorld a' es (o ++ [OPost (handshake_request key);
                                    OPost (query_request token);
                                    OPost (info_request token connection_ids)])) /\
    session_token a' = Some token /\
    servers a' = dedup (sort (names_of (combine infos connection_ids))) /\
    (forall nm, resources a' !! nm =
       match ids_named nm (combine infos connection_ids) with
       | [] => None
       | l => Some l
       end) /\
    selected_index a' = 0 /\ exit a' = false /\
    run E (mkWorld App_default es o) =
      run_loop E (S (length es))
        (mkWorld a' es (o ++ [OPost (handshake_request key);
                              OPost (query_request token);
                              OPost (info_request token connection_ids)])).
Proof.
  assert (Hsetup : run_setup E (mkWorld App_default es o) =
    Done tt (mkWorld
      (set_catalogue (set_session_token App_default (Some token))
         (dedup (sort (fold_infos [] ∅ infos connection_ids).1))
         (fold_infos [] ∅ infos connection_ids).2)
      es (o ++ [OPost (handshake_request key); OPost (query_request token);
                OPost (info_request token connection_ids)]))).
  { unfold run_setup, handshake, fetch_connections; unfold_M.
    rewrite Hkey. cbn. rewrite Hh. cbn. rewrite Hq. cbn. rewrite Hi. cbn.
    destruct (fold_infos [] ∅ infos connection_ids) as [srv res]. cbn.
    repeat rewrite <- app_assoc. reflexivity. }
  destruct (fold_left_step_spec (combine infos connection_ids) [] ∅)
    as [H1 H2].
  eexists; split; [exact Hsetup|].
  split; [reflexivity|].
  split; [cbn; unfold fold_infos; rewrite H1; reflexivity|].
  split.
  { intros nm. cbn. unfold fold_infos. rewrite H2, lookup_empty.
    destruct (ids_named nm (combine infos connection_ids)); reflexivity. }
  split; [reflexivity|]. split; [reflexivity|].
  unfold run, mbind, M_MBind, M_bind. rewrite Hsetup. reflexivity.
Qed.

Lemma run_setup_fresh_catalogue_witness :
  exists a',
    run_setup sample_env (mkWorld App_default [press KUp] []) =
      Done tt (mkWorld a' [press KUp]
        ([] ++ [OPost (handshake_request "k"); OPost (query_request "tok");
                OPost (info_request "tok" ["a1"%string; "a2"%string])])) /\
    session_token a' = Some "tok"%string /\
    servers a' = dedup (sort (names_of (combine
      [mkConnectionInfo ["web1"%string] None; mkConnectionInfo ["web1"%string] None]
      ["a1"%string; "a2"%string]))) /\
    (forall nm, resources a' !! nm =
       match ids_named nm (combine
         [mkConnectionInfo ["web1"%string] None; mkConnectionInfo ["web1"%string] None]
         ["a1"%string; "a2"%string]) with
       | [] => None
       | l => Some l
       end) /\
    selected_index a' = 0 /\ exit a' = false /\
    run sample_env (mkWorld App_default [press KUp] []) =
      run_loop sample_env (S (length [press KUp]))
        (mkWorld a' [press KUp]
          ([] ++ [OPost (handshake_request "k"); OPost (query_request "tok");
                  OPost (info_request "tok" ["a1"%string; "a2"%string])])).
Proof.
  apply (run_setup_fresh_catalogue sample_env [press KUp] [] "k" "tok");
    vm_compute; reflexivity.
Defined.

Lemma list_ascii_of_string_app (s t : string) :
  list_ascii_of_string (String.append s t) = list_ascii_of_string s ++ list_ascii_of_string t.
Proof.
  induction s as [|c s IH]; simpl; [reflexivity|]. rewrite IH. reflexivity.
Qed.

Arguments is_whitespace : simpl never.
Arguments is_whitespace2 : simpl never.
Arguments is_whitespace3 : simpl never.

Lemma is_whitespace_lt (c : ascii) :
  is_whitespace c = true -> Ascii.nat_of_ascii c < 128.
Proof.
  unfold is_whitespace. intros H.
  repeat (rewrite ?Bool.orb_true_iff, ?Bool.andb_true_iff, ?Nat.eqb_eq,
            ?Nat.leb_le in H).
  lia.
Qed.

Lemma is_whitespace2_ge (c1 c2 : ascii) :
  is_whitespace2 c1 c2 = true -> 128 <= Ascii.nat_of_ascii c2.
Proof.
  unfold is_whitespace2. intros H.
  repeat (rewrite ?Bool.orb_true_iff, ?Bool.andb_true_iff, ?Nat.eqb_eq,
            ?Nat.leb_le in H).
  lia.
Qed.

Lemma is_whitespace3_ge (c1 c2 c3 : ascii) :
  is_whitespace3 c1 c2 c3 = true -> 128 <= Ascii.nat_of_ascii c3.
Proof.
  unfold is_whitespace3. intros H.
  repeat (rewrite ?Bool.orb_true_iff, ?Bool.andb_true_iff, ?Nat.eqb_eq,
            ?Nat.leb_le in H).
  lia.
Qed.

Lemma is_whitespace2_snoc (c1 c : ascii) :
  is_whitespace c = true -> is_whitespace2 c1 c = false.
Proof.
  intros Hc. destruct (is_whitespace2 c1 c) eqn:H; [|reflexivity].
  apply is_whitespace2_ge in H. apply is_whitespace_lt in Hc. lia.
Qed.

Lemma is_whitespace3_snoc (c1 c2 c : ascii) :
  is_whitespace c = true -> is_whitespace3 c1 c2 c = false.
Proof.
  intros Hc. destruct (is_whitespace3 c1 c2 c) eqn:H; [|reflexivity].
  apply is_whitespace3_ge in H. apply is_whitespace_lt in Hc. lia.
Qed.

(** An ASCII whitespace byte appended to a sequence is dropped with the
    rest of the front whitespace or kept after what remains. *)
Lemma trim_start_bytes_snoc (l : list ascii) (c : ascii) :
  is_whitespace c = true ->
  trim_start_bytes (l ++ [c]) =
    match trim_start_bytes l with
    | [] => []
    | r => r ++ [c]
    end.
Proof.
  intros Hc. remember (length l) as n eqn:Hn.
  assert (Hl : length l <= n) by lia. clear Hn. revert l Hl.
  induction n as [|n IH]; intros l Hl.
  - destruct l; [|cbn in Hl; lia]. cbn. rewrite Hc. reflexivity.
  - destruct l as [|c1 l1]; [cbn; rewrite Hc; reflexivity|].
    cbn in Hl. simpl.
    destruct (is_whitespace c1) eqn:H1; [apply IH; lia|].
    destruct l1 as [|c2 l2]; simpl.
    { rewrite (is_whitespace2_snoc c1 c Hc). reflexivity. }
    destruct (is_whitespace2 c1 c2) eqn:H2; [apply IH; cbn in Hl; lia|].
    destruct l2 as [|c3 l3]; simpl.
    { rewrite (is_whitespace3_snoc c1 c2 c Hc). reflexivity. }
    destruct (is_whitespace3 c1 c2 c3) eqn:H3; [apply IH; cbn in Hl; lia|].
    reflexivity.
Qed.

(** [str::trim] ignores a trailing ASCII whitespace character. *)
Lemma trim_snoc_ws (s : string) (c : ascii) :
  is_whitespace c = true ->
  trim (String.append s (String c EmptyString)) = trim s.
Proof.
  intros Hc. unfold trim, trim_start, trim_end.
  rewrite list_ascii_of_string_app. change (list_ascii_of_string (String c EmptyString)) with [c].
  rewrite (trim_start_bytes_snoc _ c Hc).
  rewrite !list_ascii_of_string_of_list_ascii.
  destruct (trim_start_bytes (list_ascii_of_string s)) as [|x r]; [reflexivity|].
  rewrite rev_app_distr. simpl (rev [c]).
  change ([c] ++ rev (x :: r)) with (c :: rev (x :: r)).
  simpl (trim_end_rev_bytes (c :: rev (x :: r))). rewrite Hc. reflexivity.
Qed.

(** X: fzf prints the chosen line followed by a newline; the trimming in
    [fzf_search] drops it, so choosing a listed name that has no
    surrounding whitespace launches the session against that name's first
    identifier, after [fzf] was fed the names one per line. *)
Theorem fzf_selected_line_launches (E : Env) (a : App)
    (es : list (result Event IoError)) (o : list Output)
    (server connection_id : string) (rest : list string)
    (Hfzf : fzf E (join nl (servers a)) = FzfExited true (Some (server ++ nl)%string))
    (Hname : trim server = server)
    (Hres : resources a !! server = Some (connection_id :: rest)) :
  fzf_search E (mkWorld a es o)
  = open_terminal_session E a connection_id
      (mkWorld a es (o ++ [OFzf (join nl (servers a))])).
Proof.
  unfold fzf_search; unfold_M. rewrite Hfzf. cbn.
  unfold nl. rewrite trim_snoc_ws by reflexivity. rewrite Hname, Hres.
  reflexivity.
Qed.

Lemma fzf_selected_line_launches_witness :
  fzf_search sample_env (mkWorld sample_app [press KUp] [])
  = open_terminal_session sample_env sample_app "a1"
      (mkWorld sample_app [press KUp] ([] ++ [OFzf (join nl (servers sample_app))])).
Proof.
  apply (fzf_selected_line_launches sample_env sample_app [press KUp] [] "web1"
           "a1" ["a2"%string]); vm_compute; reflexivity.
Defined.

(** ** Input consumption *)

Lemma open_terminal_session_events (E : Env) (self : App) (uuid : string)
    (w : World) :
  match open_terminal_session E self uuid w with
  | Done _ w' => length (events w') <= length (events w)
  | Panicked _ _ => True
  | Blocked w' => events w' = []
  end.
Proof.
  destruct w as [a es o]. unfold open_terminal_session.
  destruct (session_token self) as [token|]; unfold_M; [|lia].
  destruct (http E (terminal_request token uuid)) as [err|status body]; cbn;
    [|destruct (is_success status); cbn]; destruct es; cbn; auto; lia.
Qed.

Lemma fzf_search_events (E : Env) (w : World) :
  match fzf_search E w with
  | Done _ w' => length (events w') <= length (events w)
  | Panicked _ _ => True
  | Blocked w' => events w' = []
  end.
Proof.
  destruct w as [a es o]. unfold fzf_search; unfold_M.
  destruct (fzf E (join nl (servers a))) as [e|e|e|[|] [s|]]; cbn; auto.
  destruct (resources a !! trim s) as [[|cid rest]|]; cbn; auto.
  apply (open_terminal_session_events E a cid (mkWorld a es _)).
Qed.

Lemma handle_events_events (E : Env) (w : World) :
  match handle_events E w with
  | Done _ w' => length (events w') < length (events w)
  | Panicked _ _ => True
  | Blocked w' => events w' = []
  end.
Proof.
  destruct w as [a es o]. unfold handle_events; unfold_M.
  destruct es as [|[ev|e] es]; cbn -[Nat.ltb Nat.leb]; [reflexivity| |lia].
  destruct ev as [| |[c kd]| | |]; cbn -[Nat.ltb Nat.leb]; try lia.
  destruct kd;
    [|destruct c as [| | |c|n]; try destruct c as [[] [] [] [] [] [] [] []];
      cbn; lia ..].
  destruct c as [| | |c|n]; cbn -[Nat.ltb Nat.leb].
  - destruct (S (selected_index a) <? length (servers a)); cbn; lia.
  - destruct (0 <? selected_index a); cbn; lia.
  - destruct (servers a !! selected_index a) as [server|]; cbn; [|exact I].
    destruct (resources a !! server) as [[|cid rest]|]; cbn; try lia.
    pose proof (open_terminal_session_events E a cid (mkWorld a es o)) as H.
    destruct (open_terminal_session E a cid (mkWorld a es o)); cbn in *; auto; lia.
  - destruct c as [[] [] [] [] [] [] [] []]; cbn -[Nat.ltb Nat.leb]; try lia;
      try (destruct (S (selected_index a) <? length (servers a)); cbn; lia);
      try (destruct (0 <? selected_index a); cbn; lia).
    all: pose proof (fzf_search_events E (mkWorld a es o)) as H;
         destruct (fzf_search E (mkWorld a es o)); cbn in *; auto; lia.
  - lia.
Qed.

(** X: every turn of the event loop reads at least one event, so with more
    turns than pending events the loop stops for lack of input only: it
    waits solely when every event has been read. *)
Theorem run_loop_blocks_only_without_input (E : Env) (fuel : nat)
    (w w' : World)
    (Hfuel : length (events w) < fuel)
    (Hrun : run_loop E fuel w = Blocked w') :
  events w' = [].
Proof.
  revert w Hfuel Hrun. induction fuel as [|fuel IH]; intros w Hfuel Hrun;
    [lia|].
  destruct w as [a es o]. rewrite run_loop_S in Hrun. cbn in Hfuel.
  destruct (exit a); [discriminate|].
  pose proof (handle_events_events E
                (mkWorld a es (o ++ [ODraw (servers a) (selected_index a)]))) as H.
  destruct (handle_events E _) as [[]| |]; try discriminate.
  - eapply IH; [|exact Hrun]. cbn in H. lia.
  - injection Hrun as <-. exact H.
Qed.

Lemma run_loop_blocks_only_without_input_witness :
  length (events (mkWorld sample_app [press KEnter] [])) < 2 /\
  events (mkWorld sample_app [] (ODraw ["web1"%string] 0 ::
            OClear :: OStdout ("Connecting to " ++ "a1" ++ "...")%string ::
            OPost (terminal_request "tok" "a1") ::
            OStderr ("Error opening terminal session:" ++ nl
                     ++ "connection refused")%string ::
            [OStdout "Press any key to return..."])) = [].
Proof.
  split; [cbn; lia|].
  apply (run_loop_blocks_only_without_input sample_env 2
           (mkWorld sample_app [press KEnter] [])); [cbn; lia|].
  vm_compute. reflexivity.
Defined.

(** ** The drawn list *)

Lemma draw_items_from_highlight (i idx : nat) (l : list string) :
  List.filter snd (draw_items_from i l idx) =
  if i <=? idx then match l !! (idx - i) with
                    | Some x => [(x, true)]
                    | None => []
                    end
  else [].
Proof.
  revert i. induction l as [|x l IH]; intros i.
  - destruct (i <=? idx); reflexivity.
  - change (draw_items_from i (x :: l) idx)
      with ((x, i =? idx) :: draw_items_from (S i) l idx).
    destruct (Nat.eqb_spec i idx) as [->|Hne].
    + change (List.filter snd ((x, true) :: draw_items_from (S idx) l idx))
        with ((x, true) :: List.filter snd (draw_items_from (S idx) l idx)).
      rewrite IH, Nat.leb_refl, Nat.sub_diag.
      destruct (Nat.leb_spec (S idx) idx); [lia|reflexivity].
    + change (List.filter snd ((x, false) :: draw_items_from (S i) l idx))
        with (List.filter snd (draw_items_from (S i) l idx)).
      rewrite IH.
      destruct (Nat.leb_spec (S i) idx), (Nat.leb_spec i idx); try lia;
        [|reflexivity].
      replace (idx - i) with (S (idx - S i)) by lia. reflexivity.
Qed.

(** X: [draw] shows every server once, in order, and highlights exactly
    the server under the cursor; with the cursor outside the list nothing
    is highlighted. *)
Theorem draw_highlights_selected (servers : list string) (selected_index : nat) :
  map fst (draw_items servers selected_index) = servers /\
  List.filter snd (draw_items servers selected_index) =
    match servers !! selected_index with
    | Some x => [(x, true)]
    | None => []
    end.
Proof.
  split.
  - unfold draw_items. generalize 0.
    induction servers as [|x l IH]; intros i; cbn; [reflexivity|].
    rewrite IH. reflexivity.
  - unfold draw_items. rewrite draw_items_from_highlight. cbn.
    rewrite Nat.sub_0_r. reflexivity.
Qed.

(** X: the setup before the loop never waits for input and reads none;
    when it returns, the cursor and the exit flag are as they went in. *)
Theorem run_setup_outcome (E : Env) (w : World) :
  match run_setup E w with
  | Done _ w' => events w' = events w /\
                 selected_index (app w') = selected_index (app w) /\
                 exit (app w') = exit (app w)
  | Panicked _ _ => True
  | Blocked _ => False
  end.
Proof.
  destruct w as [a es o].
  unfold run_setup, handshake, fetch_connections; unfold_M.
  destruct (env_var E "XPIPE_API_KEY") as [key|]; cbn; [|exact I].
  destruct (decode_reply E de_handshake (http E (handshake_request key)))
    as [token|e]; cbn; [|auto].
  destruct (decode_reply E de_query (http E (query_request token)))
    as [ids|e]; cbn; [|auto].
  destruct (decode_reply E de_info_response (http E (info_request token ids)))
    as [infos|e]; cbn; [|auto].
  destruct (fold_infos (servers a) (resources a) infos ids); cbn. auto.
Qed.

(** X: Down then Up, from a cursor that is not on the last item, gives
    the app back as it was; Up then Down, from the item just after it,
    gives that state back too.  Neither pair prints anything. *)
Theorem down_up_roundtrip (E : Env) (a : App) es o
    (Hidx : S (selected_index a) < length (servers a)) :
  (M_bind (handle_events E) (fun _ => handle_events E))
    (mkWorld a (press KDown :: press KUp :: es) o) =
    Done (Ok tt) (mkWorld a es o) /\
  (M_bind (handle_events E) (fun _ => handle_events E))
    (mkWorld (set_selected_index a (S (selected_index a)))
       (press KUp :: press KDown :: es) o) =
    Done (Ok tt) (mkWorld (set_selected_index a (S (selected_index a))) es o).
Proof.
  unfold handle_events, press; unfold_M.
  destruct (Nat.ltb_spec (S (selected_index a)) (length (servers a)));
    [|lia].
  cbn -[Nat.ltb Nat.leb].
  destruct (Nat.ltb_spec 0 (S (selected_index a))); [|lia].
  cbn -[Nat.ltb Nat.leb]. rewrite Nat.sub_0_r.
  split; [destruct a; reflexivity|].
  destruct (Nat.ltb_spec (S (selected_index a)) (length (servers a)));
    [|lia].
  destruct a; reflexivity.
Qed.

Definition two_server_app : App :=
  mkApp ["db"%string; "web1"%string] ∅ 0 false EmptyString false None.

Lemma down_up_roundtrip_witness :
  S (selected_index two_server_app) < length (servers two_server_app) /\
  ((M_bind (handle_events sample_env) (fun _ => handle_events sample_env))
     (mkWorld two_server_app [press KDown; press KUp] []) =
     Done (Ok tt) (mkWorld two_server_app [] []) /\
   (M_bind (handle_events sample_env) (fun _ => handle_events sample_env))
     (mkWorld (set_selected_index two_server_app
                 (S (selected_index two_server_app)))
        [press KUp; press KDown] []) =
     Done (Ok tt) (mkWorld (set_selected_index two_server_app
                              (S (selected_index two_server_app))) [] [])).
Proof.
  split; [cbn; lia|].
  apply (down_up_roundtrip sample_env two_server_app [] []).
  cbn; lia.
Defined.
